(** * PRY_Board: filtering and derived-field engine of the imports dashboard

    A shallow embedding of the data logic of [PRY_Board.py]: the name
    normaliser [clean_name] and the buyer resolver [determine_buyer] of
    [load_data], the date-bound parser [parse_date_simple], the reset
    reducer [handle_resets], the filter chain shared by
    [update_dropdown_options] and [update_dashboard], the option lists of
    the dropdowns and the top-N series of the charts.

    Text is modelled by the Standard Library's [string] (one [ascii] per
    character), which covers the 7-bit names, codes and dates the
    spreadsheet holds; a numeric column is modelled by exact integers. *)

From Stdlib Require Import ZArith List Bool Ascii String Lia.
From Stdlib Require Import Permutation Sorted DecimalString.
From Stdlib Require OrderedTypeEx.
Import ListNotations.

Local Open Scope string_scope.
Local Open Scope bool_scope.

(* ================================================================== *)
(** ** Python string primitives *)

Module PyStr.

(** Code point of a character. *)
Definition ord (c : ascii) : N := N_of_ascii c.

Definition in_range (lo hi : N) (c : ascii) : bool :=
  (lo <=? ord c)%N && (ord c <=? hi)%N.

(** [str.isspace] on one character: TAB..CR, FS..US and the blank. *)
Definition is_space (c : ascii) : bool :=
  in_range 9 13 c || in_range 28 32 c.

Definition is_digit (c : ascii) : bool := in_range 48 57 c.
Definition is_lower (c : ascii) : bool := in_range 97 122 c.
Definition is_upper (c : ascii) : bool := in_range 65 90 c.

(** The class [\w] of the [re] module: letters, digits and the underscore. *)
Definition is_word (c : ascii) : bool :=
  is_lower c || is_upper c || is_digit c || (c =? "_")%char.

Definition upper_char (c : ascii) : ascii :=
  if is_lower c then ascii_of_N (ord c - 32) else c.

(** [str.upper]. *)
Fixpoint upper (s : string) : string :=
  match s with
  | EmptyString => EmptyString
  | String c s' => String (upper_char c) (upper s')
  end.

(** [str.lstrip], [str.rstrip] and [str.strip] without argument. *)
Fixpoint lstrip (s : string) : string :=
  match s with
  | EmptyString => EmptyString
  | String c s' => if is_space c then lstrip s' else s
  end.

Fixpoint rstrip (s : string) : string :=
  match s with
  | EmptyString => EmptyString
  | String c s' =>
      match rstrip s' with
      | EmptyString => if is_space c then EmptyString else String c EmptyString
      | r => String c r
      end
  end.

Definition strip (s : string) : string := rstrip (lstrip s).

(** Truth value of a string in a condition: the empty string is false. *)
Definition truthy (s : string) : bool :=
  match s with EmptyString => false | _ => true end.

(** [s[n:]]. *)
Fixpoint drop (n : nat) (s : string) : string :=
  match n, s with
  | O, _ => s
  | S n', String _ s' => drop n' s'
  | S _, EmptyString => EmptyString
  end.

(** [s.split(sep)[0]] for a one-character separator. *)
Fixpoint split_head (sep : ascii) (s : string) : string :=
  match s with
  | EmptyString => EmptyString
  | String c s' => if (c =? sep)%char then EmptyString
                   else String c (split_head sep s')
  end.

End PyStr.

(* ================================================================== *)
(** ** A backtracking matcher for the fragment of [re] the program uses *)

Module Re.
Import PyStr.

Inductive regex : Type :=
| Chr (c : ascii)                 (* a literal character *)
| Cls (p : ascii -> bool)         (* a character class *)
| WordB                           (* \b *)
| Eps                             (* the empty pattern *)
| Cat (r1 r2 : regex)             (* r1 r2 *)
| Alt (r1 r2 : regex)             (* r1|r2, the left branch tried first *)
| Opt (r : regex)                 (* r?, greedy *)
| Group (r : regex).              (* ( r ), capturing *)

(** A position of an attempt in the subject: the character before it (if
    any), the text the attempt has consumed so far, the text from the
    position on, and the groups captured so far, in closing order. *)
Record cursor : Type := Cursor
  { before : option ascii;
    matched : string;
    ahead : string;
    groups : list string }.

Definition word_before (p : option ascii) : bool :=
  match p with Some c => is_word c | None => false end.

Definition word_ahead (s : string) : bool :=
  match s with String c _ => is_word c | EmptyString => false end.

(** [\b] holds where exactly one neighbour is a word character. *)
Definition at_boundary (p : option ascii) (s : string) : bool :=
  xorb (word_before p) (word_ahead s).

(** The cursor after the character [c], the text [s] remaining. *)
Definition advance (cur : cursor) (c : ascii) (s : string) : cursor :=
  Cursor (Some c) (matched cur ++ String c EmptyString) s (groups cur).

(** [exec r cur k]: match [r] at [cur] and continue with [k]; the first
    success in backtracking order is the answer.  A group runs its pattern
    with an empty record of consumed text, which is the group's text when
    the pattern is through. *)
Fixpoint exec {A : Type} (r : regex) (cur : cursor)
         (k : cursor -> option A) : option A :=
  match r with
  | Chr c =>
      match ahead cur with
      | String c' s' => if (c' =? c)%char then k (advance cur c' s') else None
      | EmptyString => None
      end
  | Cls p =>
      match ahead cur with
      | String c' s' => if p c' then k (advance cur c' s') else None
      | EmptyString => None
      end
  | WordB => if at_boundary (before cur) (ahead cur) then k cur else None
  | Eps => k cur
  | Cat r1 r2 => exec r1 cur (fun cur' => exec r2 cur' k)
  | Alt r1 r2 =>
      match exec r1 cur k with
      | Some a => Some a
      | None => exec r2 cur k
      end
  | Opt r1 =>
      match exec r1 cur k with
      | Some a => Some a
      | None => k cur
      end
  | Group r1 =>
      exec r1 (Cursor (before cur) EmptyString (ahead cur) (groups cur))
           (fun cur' =>
              k (Cursor (before cur') (matched cur ++ matched cur')
                        (ahead cur') (groups cur' ++ [matched cur'])))
  end.

(** The pattern matching the text [s] literally. *)
Fixpoint lit (s : string) : regex :=
  match s with
  | EmptyString => Eps
  | String c s' => Cat (Chr c) (lit s')
  end.

(** [r1|r2|...|rn]. *)
Fixpoint alts (rs : list regex) : regex :=
  match rs with
  | [] => Cls (fun _ => false)
  | [r] => r
  | r :: rs' => Alt r (alts rs')
  end.

(** One attempt of the pattern at a position of the subject. *)
Definition match_here (r : regex) (prev : option ascii) (s : string)
  : option cursor :=
  exec r (Cursor prev EmptyString s []) Some.

(** [re.sub(r, '', s)] for a pattern that matches no empty text: scanning
    left to right, a match at the current position is dropped and the scan
    resumes behind it ([skip] counts the characters of the match still to
    pass); otherwise the character is copied. *)
Fixpoint sub_scan (r : regex) (skip : nat) (prev : option ascii) (s : string)
  : string :=
  match s with
  | EmptyString => EmptyString
  | String c s' =>
      match skip with
      | S n => sub_scan r n (Some c) s'
      | O =>
          match match_here r prev s with
          | Some cur =>
              match String.length (matched cur) with
              | S n => sub_scan r n (Some c) s'
              | O => String c (sub_scan r 0 (Some c) s')
              end
          | None => String c (sub_scan r 0 (Some c) s')
          end
      end
  end.

Definition sub_empty (r : regex) (s : string) : string := sub_scan r 0 None s.

(** The use [strptime] makes of its pattern: it must match at the start of
    the text and leave nothing unconverted. *)
Definition match_all (r : regex) (s : string) : option (list string) :=
  match match_here r None s with
  | Some cur => if truthy (ahead cur) then None else Some (groups cur)
  | None => None
  end.

End Re.

(* ================================================================== *)
(** ** Spreadsheet cells *)

(** A cell as [read_excel] delivers it: missing, text or a whole number. *)
Inductive cell : Type :=
| NaN
| Str (s : string)
| Int (z : Z).

(** [pd.notna]. *)
Definition notna (c : cell) : bool :=
  match c with NaN => false | _ => true end.

(** [str(x)] and [astype(str)], which print a missing value as [nan]. *)
Definition py_str (c : cell) : string :=
  match c with
  | NaN => "nan"
  | Str s => s
  | Int z => NilZero.string_of_int (Z.to_int z)
  end.

(* ================================================================== *)
(** ** Name normaliser and buyer resolver ([load_data]) *)

Module Buyer.
Import PyStr Re.

Definition suffix_words : list string :=
  ["LTD"; "LLC"; "INC"; "CO"; "COMPANY"; "LIMITED"; "PRIVATE"].

(** [\b(LTD|LLC|INC|CO|COMPANY|LIMITED|PRIVATE)\b\.?] *)
Definition suffix_re : regex :=
  Cat WordB
   (Cat (Group (alts (map lit suffix_words)))
     (Cat WordB (Opt (Chr ".")))).

Definition clean_name (name : string) : string :=
  strip (sub_empty suffix_re (upper name)).

(** The three declarant columns of a row. *)
Record declarants : Type := Declarants
  { shipper_declared : cell;
    international_competitor : cell;
    domestic_competitor : cell }.

(** [str(x).strip() if pd.notna(x) else ''] *)
Definition field_text (c : cell) : string :=
  if notna c then strip (py_str c) else "".

Definition determine_buyer (row : declarants) : string :=
  let shipper := field_text (shipper_declared row) in
  let intl_comp := field_text (international_competitor row) in
  let dom_comp := field_text (domestic_competitor row) in
  let shipper_clean := clean_name shipper in
  let intl_clean := clean_name intl_comp in
  let dom_clean := clean_name dom_comp in
  if truthy intl_comp && negb (intl_clean =? shipper_clean) then intl_comp
  else if truthy dom_comp && negb (dom_clean =? shipper_clean) then dom_comp
  else if truthy intl_comp then intl_comp
  else if truthy dom_comp then dom_comp
  else "Unknown".

(** The normaliser of the specification, read to the letter: the
    upper-cased name is cut into words (maximal runs of word characters)
    and the characters between them; a word that is one of the suffix
    words is removed, together with a period that follows it directly;
    the result is trimmed. *)
Inductive piece : Type :=
| Word (w : string)
| Mark (c : ascii).

Fixpoint pieces (s : string) : list piece :=
  match s with
  | EmptyString => []
  | String c s' =>
      if is_word c then
        match pieces s' with
        | Word w :: ps => Word (String c w) :: ps
        | ps => Word (String c EmptyString) :: ps
        end
      else Mark c :: pieces s'
  end.

(** [after_suffix] tells that the piece before was a removed word. *)
Fixpoint without_suffix_words (after_suffix : bool) (ps : list piece)
  : string :=
  match ps with
  | [] => EmptyString
  | Word w :: ps' =>
      if existsb (String.eqb w) suffix_words
      then without_suffix_words true ps'
      else w ++ without_suffix_words false ps'
  | Mark c :: ps' =>
      if after_suffix && (c =? ".")%char
      then without_suffix_words false ps'
      else String c (without_suffix_words false ps')
  end.

Definition normalize (name : string) : string :=
  strip (without_suffix_words false (pieces (upper name))).

(** The period behind a suffix word, which its removal takes along. *)
Definition trailing_period (rest : string) : string :=
  match rest with
  | String c _ => if (c =? ".")%char then "." else ""
  | EmptyString => ""
  end.

(** A text made of word characters only. *)
Fixpoint all_word (s : string) : bool :=
  match s with
  | EmptyString => true
  | String c s' => is_word c && all_word s'
  end.

End Buyer.

(* ================================================================== *)
(** ** Calendar dates and [datetime.strptime(_, '%m/%d/%Y')] *)

Module Dates.
Import PyStr Re.

Local Open Scope Z_scope.

(** A [datetime.date]. *)
Record date : Type := MkDate { year : Z; month : Z; day : Z }.

(** Dates compare by year, then month, then day. *)
Definition date_leb (a b : date) : bool :=
  (year a <? year b)
  || ((year a =? year b)
      && ((month a <? month b)
          || ((month a =? month b) && (day a <=? day b)))).

Definition is_leap (y : Z) : bool :=
  ((y mod 4 =? 0) && negb (y mod 100 =? 0)) || (y mod 400 =? 0).

Definition days_in_month (y m : Z) : Z :=
  if m =? 2 then (if is_leap y then 29 else 28)
  else if (m =? 4) || (m =? 6) || (m =? 9) || (m =? 11) then 30
  else 31.

(** The range check of the [date] constructor. *)
Definition valid_date (y m d : Z) : bool :=
  (1 <=? y) && (y <=? 9999) && (1 <=? m) && (m <=? 12)
  && (1 <=? d) && (d <=? days_in_month y m).

Definition digit_value (c : ascii) : Z := Z.of_N (ord c) - 48.

(** [int(s)] on the texts the directives capture: decimal digits, blanks
    around them ignored. *)
Fixpoint int_digits (acc : Z) (s : string) : Z :=
  match s with
  | EmptyString => acc
  | String c s' => int_digits (10 * acc + digit_value c) s'
  end.

Definition int_of (s : string) : Z := int_digits 0 (strip s).

Definition range (lo hi : ascii) : regex := Cls (in_range (ord lo) (ord hi)).
Definition digit : regex := Cls is_digit.

(** [%m]: [1[0-2]|0[1-9]|[1-9]] *)
Definition month_re : regex :=
  Alt (Cat (Chr "1") (range "0" "2"))
 (Alt (Cat (Chr "0") (range "1" "9"))
      (range "1" "9")).

(** [%d]: [3[0-1]|[1-2]\d|0[1-9]|[1-9]| [1-9]] *)
Definition day_re : regex :=
  Alt (Cat (Chr "3") (range "0" "1"))
 (Alt (Cat (range "1" "2") digit)
 (Alt (Cat (Chr "0") (range "1" "9"))
 (Alt (range "1" "9")
      (Cat (Chr " ") (range "1" "9"))))).

(** [%Y]: [\d\d\d\d] *)
Definition year_re : regex := Cat digit (Cat digit (Cat digit digit)).

(** The pattern [strptime] compiles ['%m/%d/%Y'] to. *)
Definition mdy_re : regex :=
  Cat (Group month_re) (Cat (Chr "/")
 (Cat (Group day_re) (Cat (Chr "/") (Group year_re)))).

(** [datetime.strptime(s, '%m/%d/%Y').date()]; [None] stands for the
    [ValueError] of a text that does not match, leaves text unconverted or
    names no calendar day. *)
Definition strptime_mdy (s : string) : option date :=
  match match_all mdy_re s with
  | Some [m; d; y] =>
      let yy := int_of y in
      let mm := int_of m in
      let dd := int_of d in
      if valid_date yy mm dd then Some (MkDate yy mm dd) else None
  | _ => None
  end.

(** The texts the three directives take, for stating what is accepted:
    a month or a day is one or two digits, a day may also be a blank and a
    digit, a year is four digits. *)
Fixpoint all_digits (s : string) : bool :=
  match s with
  | EmptyString => true
  | String c s' => is_digit c && all_digits s'
  end.

Definition month_text (s : string) : bool :=
  all_digits s && ((String.length s =? 1)%nat || (String.length s =? 2)%nat).

Definition day_text (s : string) : bool :=
  month_text s
  || match s with
     | String b (String c EmptyString) => (b =? " ")%char && is_digit c
     | _ => false
     end.

Definition year_text (s : string) : bool :=
  all_digits s && (String.length s =? 4)%nat.

(** The form MM/DD/YYYY of the specification, read to the letter: two
    digits, a slash, two digits, a slash, four digits. *)
Definition mmddyyyy_form (s : string) : bool :=
  (String.length s =? 10)%nat
  && all_digits (substring 0 2 s) && (substring 2 1 s =? "/")%string
  && all_digits (substring 3 2 s) && (substring 5 1 s =? "/")%string
  && all_digits (substring 6 4 s).

(** [parse_date_simple]: the argument is the value of a text input, [None]
    or a string. *)
Definition parse_date_simple (date_string : option string) : option date :=
  match date_string with
  | None => None
  | Some s =>
      if negb (truthy s) then None
      else strptime_mdy (strip s)
  end.

End Dates.

(* ================================================================== *)
(** ** The frame: loading, filtering, option lists, charts, resets *)

Module Board.
Import PyStr Buyer Dates.

(** A row of the sheet ['Data'] as read. *)
Record sheet_row : Type := SheetRow
  { raw_Date : cell;
    raw_Shipper_Declared : cell;
    raw_International_Competitor : cell;
    raw_Domestic_Competitor : cell;
    raw_HS_Code : cell;
    raw_Country_of_Origin : cell;
    raw_Category : cell;
    raw_Metric_Tons : cell;
    raw_Total_calculated_value : cell;
    raw_Val_KG : cell }.

(** A row of the global frame [df]: dates and numbers coerced (a failed
    coercion is [None], that is NaT or NaN), [Buyer] and [Seller] added. *)
Record row : Type := Row
  { Date : option date;
    Shipper_Declared : cell;
    International_Competitor : cell;
    Domestic_Competitor : cell;
    HS_Code : cell;
    Country_of_Origin : cell;
    Category : cell;
    Metric_Tons : option Z;
    Total_calculated_value : option Z;
    Val_KG : option Z;
    Buyer : string;
    Seller : cell }.

Definition target_hs_codes : list string :=
  ["854442"; "854449"; "854460"; "740311"].

(** [x in xs] and [Series.isin] on strings. *)
Definition isin (x : string) (xs : list string) : bool :=
  existsb (String.eqb x) xs.

Section Loader.

(** [pd.to_datetime(_, format='%m/%d/%Y', errors='coerce')] and
    [pd.to_numeric(_, errors='coerce')] on one cell: total, a cell that
    cannot be converted gives [None]. *)
Variable to_datetime : cell -> option date.
Variable to_numeric : cell -> option Z.

Definition load_row (r : sheet_row) : row :=
  {| Date := to_datetime (raw_Date r);
     Shipper_Declared := raw_Shipper_Declared r;
     International_Competitor := raw_International_Competitor r;
     Domestic_Competitor := raw_Domestic_Competitor r;
     HS_Code := raw_HS_Code r;
     Country_of_Origin := raw_Country_of_Origin r;
     Category := raw_Category r;
     Metric_Tons := to_numeric (raw_Metric_Tons r);
     Total_calculated_value := to_numeric (raw_Total_calculated_value r);
     Val_KG := to_numeric (raw_Val_KG r);
     Buyer := determine_buyer
                (Declarants (raw_Shipper_Declared r)
                            (raw_International_Competitor r)
                            (raw_Domestic_Competitor r));
     Seller := raw_Shipper_Declared r |}.

(** [load_data]; the argument is what [read_excel] gives, [None] when it
    raises, in which case the frame is empty.

    The code column is printed cell by cell ([py_str]), which is what
    [astype(str)] does on a column of dtype [int64] (integers only) or
    [object] (some text).  A column of integers with a blank among them
    is [float64] and prints [854442.0], so that no row of such a sheet is
    kept: the model is that of the sheets without a blank among integer
    codes. *)
Definition load_data (sheet : option (list sheet_row)) : list row :=
  match sheet with
  | Some rows =>
      filter (fun r => isin (py_str (HS_Code r)) target_hs_codes)
             (map load_row rows)
  | None => []
  end.

End Loader.

(** *** Filter state *)

(** The seven [State] values of the callbacks: each is [None] or a text. *)
Record filters : Type := Filters
  { start_date : option string;
    end_date : option string;
    buyer : option string;
    seller : option string;
    hs_code : option string;
    country : option string;
    category : option string }.

(** Truth value of such a value in a condition. *)
Definition is_set (v : option string) : bool :=
  match v with Some s => truthy s | None => false end.

(** [str(v)]. *)
Definition str_of (v : option string) : string :=
  match v with Some s => s | None => "None" end.

(** [d >= bound] and [d <= bound] on a [Date] entry; NaT compares false. *)
Definition on_or_after (bound : date) (d : option date) : bool :=
  match d with Some x => date_leb bound x | None => false end.

Definition on_or_before (bound : date) (d : option date) : bool :=
  match d with Some x => date_leb x bound | None => false end.

(** The filter chain, the same statements in [update_dropdown_options] and
    in [update_dashboard]. *)
Definition filtered_df (st : filters) (df : list row) : list row :=
  let filtered := df in
  let filtered :=
    if is_set (start_date st) then
      match parse_date_simple (start_date st) with
      | Some start_parsed =>
          filter (fun r => on_or_after start_parsed (Date r)) filtered
      | None => filtered
      end
    else filtered in
  let filtered :=
    if is_set (end_date st) then
      match parse_date_simple (end_date st) with
      | Some end_parsed =>
          filter (fun r => on_or_before end_parsed (Date r)) filtered
      | None => filtered
      end
    else filtered in
  let filtered :=
    if is_set (buyer st)
    then filter (fun r => Buyer r =? str_of (buyer st)) filtered
    else filtered in
  let filtered :=
    if is_set (seller st)
    then filter (fun r => py_str (Seller r) =? str_of (seller st)) filtered
    else filtered in
  let filtered :=
    if is_set (hs_code st)
    then filter (fun r => py_str (HS_Code r) =? str_of (hs_code st)) filtered
    else filtered in
  let filtered :=
    if is_set (country st)
    then filter (fun r => py_str (Country_of_Origin r) =? str_of (country st))
                filtered
    else filtered in
  let filtered :=
    if is_set (category st)
    then filter (fun r => py_str (Category r) =? str_of (category st)) filtered
    else filtered in
  filtered.

(** *** The dimensions one at a time *)

Inductive dimension : Type :=
| StartDate | EndDate | BuyerDim | SellerDim | HsCodeDim | CountryDim
| CategoryDim.

Definition all_dimensions : list dimension :=
  [StartDate; EndDate; BuyerDim; SellerDim; HsCodeDim; CountryDim;
   CategoryDim].

Definition value_of (d : dimension) (st : filters) : option string :=
  match d with
  | StartDate => start_date st
  | EndDate => end_date st
  | BuyerDim => buyer st
  | SellerDim => seller st
  | HsCodeDim => hs_code st
  | CountryDim => country st
  | CategoryDim => category st
  end.

Definition is_date_dimension (d : dimension) : bool :=
  match d with StartDate | EndDate => true | _ => false end.

(** The state with the value of dimension [d] replaced by [v]. *)
Definition with_value (d : dimension) (v : option string) (st : filters)
  : filters :=
  match d with
  | StartDate => Filters v (end_date st) (buyer st) (seller st) (hs_code st)
                         (country st) (category st)
  | EndDate => Filters (start_date st) v (buyer st) (seller st) (hs_code st)
                       (country st) (category st)
  | BuyerDim => Filters (start_date st) (end_date st) v (seller st)
                        (hs_code st) (country st) (category st)
  | SellerDim => Filters (start_date st) (end_date st) (buyer st) v
                         (hs_code st) (country st) (category st)
  | HsCodeDim => Filters (start_date st) (end_date st) (buyer st) (seller st)
                         v (country st) (category st)
  | CountryDim => Filters (start_date st) (end_date st) (buyer st) (seller st)
                          (hs_code st) v (category st)
  | CategoryDim => Filters (start_date st) (end_date st) (buyer st)
                           (seller st) (hs_code st) (country st) v
  end.

(** What a row must satisfy for dimension [d] once its [if] is entered. *)
Definition matches (st : filters) (d : dimension) (r : row) : bool :=
  match d with
  | StartDate =>
      match parse_date_simple (start_date st) with
      | Some b => on_or_after b (Date r)
      | None => true
      end
  | EndDate =>
      match parse_date_simple (end_date st) with
      | Some b => on_or_before b (Date r)
      | None => true
      end
  | BuyerDim => Buyer r =? str_of (buyer st)
  | SellerDim => py_str (Seller r) =? str_of (seller st)
  | HsCodeDim => py_str (HS_Code r) =? str_of (hs_code st)
  | CountryDim => py_str (Country_of_Origin r) =? str_of (country st)
  | CategoryDim => py_str (Category r) =? str_of (category st)
  end.

(** One [if] block of the chain on its own. *)
Definition apply_dimension (st : filters) (d : dimension) (df : list row)
  : list row :=
  if is_set (value_of d st) then filter (matches st d) df else df.

(** The blocks run in the order [ds]. *)
Definition apply_in_order (st : filters) (ds : list dimension)
  (df : list row) : list row :=
  fold_left (fun acc d => apply_dimension st d acc) ds df.

(** Dimension [d] lets row [r] through: it is unset or matches. *)
Definition holds (st : filters) (r : row) (d : dimension) : bool :=
  negb (is_set (value_of d st)) || matches st d r.

(** A row passes when every set field matches it. *)
Definition passes (st : filters) (r : row) : bool :=
  forallb (holds st r) all_dimensions.

(** *** Option lists ([update_dropdown_options]) *)

Definition cell_eqb (a b : cell) : bool :=
  match a, b with
  | NaN, NaN => true
  | Str s, Str t => (s =? t)%string
  | Int x, Int y => (x =? y)%Z
  | _, _ => false
  end.

(** [Series.dropna]. *)
Definition dropna (l : list cell) : list cell := filter notna l.

(** [Series.unique]: the distinct values in order of first appearance. *)
Fixpoint unique_from {A : Type} (eqb : A -> A -> bool) (seen l : list A)
  : list A :=
  match l with
  | [] => []
  | x :: l' =>
      if existsb (eqb x) seen then unique_from eqb seen l'
      else x :: unique_from eqb (x :: seen) l'
  end.

Definition unique {A : Type} (eqb : A -> A -> bool) (l : list A) : list A :=
  unique_from eqb [] l.

(** [sorted] on strings: ascending by code points. *)
Fixpoint insert_sorted (x : string) (l : list string) : list string :=
  match l with
  | [] => [x]
  | y :: l' => if String.leb x y then x :: l else y :: insert_sorted x l'
  end.

Fixpoint sorted (l : list string) : list string :=
  match l with
  | [] => []
  | x :: l' => insert_sorted x (sorted l')
  end.

(** An entry [{'label': _, 'value': _}] of a dropdown. *)
Record choice : Type := Choice { label : string; value : string }.

Definition choices (l : list string) : list choice :=
  map (fun x => Choice x x) l.

Definition buyer_options (filtered : list row) : list choice :=
  let buyers :=
    unique cell_eqb (dropna (map (fun r => Str (Buyer r)) filtered)) in
  let buyers_str :=
    map py_str (filter (fun b => negb (py_str b =? "Unknown")) buyers) in
  choices (sorted buyers_str).

Definition column_options (col : row -> cell) (filtered : list row)
  : list choice :=
  let values := unique cell_eqb (dropna (map col filtered)) in
  choices (sorted (map py_str values)).

Definition hs_options (filtered : list row) : list choice :=
  let available_hs :=
    unique String.eqb (map (fun r => py_str (HS_Code r)) filtered) in
  let hs_codes :=
    filter (fun code => isin code available_hs) target_hs_codes in
  choices (sorted hs_codes).

Record dropdowns : Type := Dropdowns
  { buyer_choices : list choice;
    seller_choices : list choice;
    hs_choices : list choice;
    country_choices : list choice;
    category_choices : list choice }.

Definition update_dropdown_options (df : list row) (st : filters)
  : dropdowns :=
  match df with
  | [] => Dropdowns [] [] [] [] []
  | _ =>
      let filtered := filtered_df st df in
      Dropdowns (buyer_options filtered)
                (column_options Seller filtered)
                (hs_options filtered)
                (column_options Country_of_Origin filtered)
                (column_options Category filtered)
  end.

(** Ascending order of strings by code points. *)
Definition str_le (a b : string) : Prop := String.leb a b = true.

(** An option list [opts] offers the non-null values of column [col] in
    [narrowed]: lexicographically sorted, one entry for each distinct
    value, label and value alike. *)
Definition offers (col : row -> cell) (narrowed : list row)
  (opts : list choice) : Prop :=
  (forall v, In v (map value opts) <->
             exists r, In r narrowed /\ col r <> NaN /\ py_str (col r) = v)
  /\ Sorted str_le (map value opts)
  /\ (exists cells, NoDup cells
                    /\ (forall c, In c cells <->
                                  c <> NaN /\ In c (map col narrowed))
                    /\ Permutation (map value opts) (map py_str cells))
  /\ (forall o, In o opts -> label o = value o).

(** *** Grouped sums and the top-N series ([update_dashboard]) *)

Local Open Scope Z_scope.

(** [Series.sum] adds the values present; NaN counts for nothing. *)
Definition present (v : option Z) : Z :=
  match v with Some z => z | None => 0 end.

(** A grouped series: labels ascending, one entry per label. *)
Fixpoint add_to_group (k : string) (v : Z) (acc : list (string * Z))
  : list (string * Z) :=
  match acc with
  | [] => [(k, v)]
  | (k', v') :: acc' =>
      match String.compare k k' with
      | Lt => (k, v) :: acc
      | Eq => (k', v' + v) :: acc'
      | Gt => (k', v') :: add_to_group k v acc'
      end
  end.

(** [df.groupby(key)[val].sum()]: rows without a label are left out, the
    labels come out sorted. *)
Definition group_step (key : row -> option string) (val : row -> option Z)
  (acc : list (string * Z)) (r : row) : list (string * Z) :=
  match key r with
  | Some k => add_to_group k (present (val r)) acc
  | None => acc
  end.

Definition groupby_sum (key : row -> option string) (val : row -> option Z)
  (df : list row) : list (string * Z) :=
  fold_left (group_step key val) df [].

(** Descending stable order: an entry goes before the first one that is
    not larger than it. *)
Fixpoint insert_desc (x : string * Z) (l : list (string * Z))
  : list (string * Z) :=
  match l with
  | [] => [x]
  | y :: l' => if snd x <? snd y then y :: insert_desc x l' else x :: l
  end.

Fixpoint sort_desc (l : list (string * Z)) : list (string * Z) :=
  match l with
  | [] => []
  | x :: l' => insert_desc x (sort_desc l')
  end.

(** [Series.nlargest(n)] with [keep='first']: the [n] largest entries,
    largest first, equal ones in the order of the series. *)
Definition nlargest (n : nat) (s : list (string * Z)) : list (string * Z) :=
  firstn n (sort_desc s).

Definition topNBy (key : row -> option string) (val : row -> option Z)
  (n : nat) (df : list row) : list (string * Z) :=
  nlargest n (groupby_sum key val df).

(** [filtered_df.groupby('Buyer')['Metric Tons'].sum().nlargest(10)] *)
Definition top_buyers (filtered : list row) : list (string * Z) :=
  topNBy (fun r => Some (Buyer r)) Metric_Tons 10 filtered.

(** The sum of the values present in the rows labelled [g]. *)
Fixpoint group_total (key : row -> option string) (val : row -> option Z)
  (g : string) (df : list row) : Z :=
  match df with
  | [] => 0
  | r :: df' =>
      match key r with
      | Some k => if (k =? g)%string then present (val r) else 0
      | None => 0
      end + group_total key val g df'
  end.

(** The labels of the rows that have one, in row order. *)
Fixpoint labels (key : row -> option string) (df : list row) : list string :=
  match df with
  | [] => []
  | r :: df' =>
      match key r with
      | Some k => k :: labels key df'
      | None => labels key df'
      end
  end.

(** The entry of a label in a grouped series. *)
Fixpoint lookup (g : string) (s : list (string * Z)) : option Z :=
  match s with
  | [] => None
  | (k, v) :: s' => if (k =? g)%string then Some v else lookup g s'
  end.

(** [a] sorts before [b]. *)
Definition label_lt (a b : string) : Prop := String.compare a b = Lt.

Definition by_label (x y : string * Z) : Prop := label_lt (fst x) (fst y).

(** The rank order of the top-N series: larger sum first, equal sums by
    ascending label. *)
Definition ranks_before (x y : string * Z) : Prop :=
  snd y < snd x \/ (snd x = snd y /\ label_lt (fst x) (fst y)).

(** The top-N of the specification, read to the letter: groups are formed
    in the order they are first encountered, and that order breaks ties. *)
Fixpoint add_as_met (k : string) (v : Z) (acc : list (string * Z))
  : list (string * Z) :=
  match acc with
  | [] => [(k, v)]
  | (k', v') :: acc' =>
      if (k =? k')%string then (k', v' + v) :: acc'
      else (k', v') :: add_as_met k v acc'
  end.

Definition topNBy_as_met (key : row -> option string)
  (val : row -> option Z) (n : nat) (df : list row) : list (string * Z) :=
  firstn n
    (sort_desc
       (fold_left
          (fun acc r =>
             match key r with
             | Some k => add_as_met k (present (val r)) acc
             | None => acc
             end)
          df [])).

(** [len(filtered_df)] *)
Definition total_transactions (st : filters) (df : list row) : nat :=
  List.length (filtered_df st df).

Local Close Scope Z_scope.

(** *** Resets ([handle_resets]) *)

Definition cleared : filters :=
  Filters (Some "") (Some "") None None None None None.

(** [triggered] lists the [prop_id] of the inputs that fired. *)
Definition handle_resets (triggered : list string) (st : filters) : filters :=
  match triggered with
  | [] => cleared
  | prop_id :: _ =>
      let button_id := split_head "." prop_id in
      let current_start :=
        if is_set (start_date st) then start_date st else Some "" in
      let current_end :=
        if is_set (end_date st) then end_date st else Some "" in
      let current_buyer := buyer st in
      let current_seller := seller st in
      let current_hs := hs_code st in
      let current_country := country st in
      let current_category := category st in
      if button_id =? "global-reset-btn" then
        Filters (Some "") (Some "") None None None None None
      else if button_id =? "start-date-reset" then
        Filters (Some "") current_end current_buyer current_seller
                current_hs current_country current_category
      else if button_id =? "end-date-reset" then
        Filters current_start (Some "") current_buyer current_seller
                current_hs current_country current_category
      else if button_id =? "buyer-reset" then
        Filters current_start current_end None current_seller
                current_hs current_country current_category
      else if button_id =? "seller-reset" then
        Filters current_start current_end current_buyer None
                current_hs current_country current_category
      else if button_id =? "hs-reset" then
        Filters current_start current_end current_buyer current_seller
                None current_country current_category
      else if button_id =? "country-reset" then
        Filters current_start current_end current_buyer current_seller
                current_hs None current_category
      else if button_id =? "category-reset" then
        Filters current_start current_end current_buyer current_seller
                current_hs current_country None
      else
        Filters current_start current_end current_buyer current_seller
                current_hs current_country current_category
  end.

(** The [id] of the reset button of a dimension. *)
Definition reset_button (d : dimension) : string :=
  match d with
  | StartDate => "start-date-reset"
  | EndDate => "end-date-reset"
  | BuyerDim => "buyer-reset"
  | SellerDim => "seller-reset"
  | HsCodeDim => "hs-reset"
  | CountryDim => "country-reset"
  | CategoryDim => "category-reset"
  end.

(** The cleared value of a dimension: empty text for a date, [None] for a
    dropdown. *)
Definition cleared_value (d : dimension) : option string :=
  match d with
  | StartDate | EndDate => Some ""
  | _ => None
  end.

End Board.

(* ================================================================== *)
(** ** Sample data *)

Module Samples.
Import Dates Board.

Definition unset : filters := Filters None None None None None None None.

(** A loaded row with the given date, buyer, seller, country and tonnage. *)
Definition sample_row (d : option date) (b s c : string) (tons : Z) : row :=
  {| Date := d;
     Shipper_Declared := Str s;
     International_Competitor := Str b;
     Domestic_Competitor := NaN;
     HS_Code := Int 854442;
     Country_of_Origin := Str c;
     Category := Str "Cable";
     Metric_Tons := Some tons;
     Total_calculated_value := Some (1000 * tons)%Z;
     Val_KG := None;
     Buyer := b;
     Seller := Str s |}.

Definition jan10 : option date := Some (MkDate 2024 1 10).
Definition jan15 : option date := Some (MkDate 2024 1 15).
Definition feb01 : option date := Some (MkDate 2024 2 1).

Definition undated : row := sample_row None "Beta Inc" "Acme" "Italy" 7.

Definition frame : list row :=
  [ sample_row jan10 "A" "Acme" "Italy" 100;
    sample_row jan15 "B" "Acme" "Spain" 50;
    undated;
    sample_row feb01 "C" "Apex" "Italy" 150 ].

(** The three buyers of the specification's top-N example. *)
Definition abc : list row :=
  [ sample_row jan10 "A" "Acme" "Italy" 100;
    sample_row jan15 "B" "Acme" "Spain" 50;
    sample_row feb01 "C" "Apex" "Italy" 150 ].

(** Two buyers with equal tonnage, the later label first. *)
Definition tie : list row :=
  [ sample_row jan10 "B" "Acme" "Italy" 100;
    sample_row jan15 "A" "Acme" "Spain" 100 ].

End Samples.

(* ================================================================== *)
(** ** The rest of [update_dashboard]: metric cards, counts, time series *)

Module Dashboard.
Import PyStr Dates Board.

Local Open Scope Z_scope.

(** [Series.sum()]: the values present added up, 0 for none.  The
    amounts are whole numbers here, where the code has [float64]: the
    two agree on whole amounts up to 2^53, and differ in the rounding of
    fractional ones, which depends on the order pandas adds in.  The
    properties stated of the sums are therefore those of the rows that
    enter them, none a law of addition. *)
Definition column_sum (val : row -> option Z) (df : list row) : Z :=
  fold_left (fun acc r => acc + present (val r)) df 0.

(** The values of a column that are not NaN. *)
Definition values_present (val : row -> option Z) (df : list row) : list Z :=
  flat_map (fun r => match val r with Some z => [z] | None => [] end) df.

(** [Series.mean()]: the mean of the values present as a fraction, [None]
    (NaN, shown as "N/A") when there is none. *)
Definition column_mean (val : row -> option Z) (df : list row)
  : option (Z * positive) :=
  match values_present val df with
  | [] => None
  | xs => Some (fold_left Z.add xs 0, Pos.of_nat (List.length xs))
  end.

(** The four metric cards. *)
Record metrics : Type := Metrics
  { card_transactions : nat;
    card_value : Z;
    card_volume : Z;
    card_avg_price_per_kg : option (Z * positive) }.

Definition summarize (filtered : list row) : metrics :=
  {| card_transactions := List.length filtered;
     card_value := column_sum Total_calculated_value filtered;
     card_volume := column_sum Metric_Tons filtered;
     card_avg_price_per_kg := column_mean Val_KG filtered |}.

(** [Series.value_counts()]: the values that are not NaN with the number
    of their rows, most frequent first (equal counts in order of first
    appearance). *)
Fixpoint count_value (c : cell) (acc : list (cell * nat)) : list (cell * nat) :=
  match acc with
  | [] => [(c, 1%nat)]
  | (c', n) :: acc' =>
      if cell_eqb c c' then (c', S n) :: acc'
      else (c', n) :: count_value c acc'
  end.

Definition tally (col : row -> cell) (df : list row) : list (cell * nat) :=
  fold_left
    (fun acc r => if notna (col r) then count_value (col r) acc else acc)
    df [].

Fixpoint insert_count (x : cell * nat) (l : list (cell * nat))
  : list (cell * nat) :=
  match l with
  | [] => [x]
  | y :: l' =>
      if (snd x <? snd y)%nat then y :: insert_count x l' else x :: l
  end.

Fixpoint sort_counts (l : list (cell * nat)) : list (cell * nat) :=
  match l with
  | [] => []
  | x :: l' => insert_count x (sort_counts l')
  end.

Definition value_counts (col : row -> cell) (df : list row)
  : list (cell * nat) :=
  sort_counts (tally col df).

(** [filtered_df['Category'].value_counts().head(5)] *)
Definition category_dist (filtered : list row) : list (cell * nat) :=
  firstn 5 (value_counts Category filtered).

(** [filtered_df['Country of Origin'].value_counts().head(10)] *)
Definition country_dist (filtered : list row) : list (cell * nat) :=
  firstn 10 (value_counts Country_of_Origin filtered).

(** The number of rows whose column holds [c]. *)
Definition frequency (col : row -> cell) (c : cell) (df : list row) : nat :=
  List.length (filter (fun r => cell_eqb (col r) c) df).

(** Equality and strict order of dates. *)
Definition date_eqb (a b : date) : bool :=
  (year a =? year b) && (month a =? month b) && (day a =? day b).

Definition date_ltb (a b : date) : bool := date_leb a b && negb (date_eqb a b).

(** Strictly earlier, spelled out on the three fields. *)
Definition lex_lt (a b : date) : Prop :=
  (year a < year b
   \/ (year a = year b
       /\ (month a < month b \/ (month a = month b /\ day a < day b))))%Z.

(** The order of the days of the time series. *)
Definition by_day (x y : date * (Z * Z)) : Prop :=
  date_ltb (fst x) (fst y) = true.

(** One day of the time series: value and tonnage. *)
Definition day_sums : Type := (date * (Z * Z))%type.

Fixpoint add_to_day (d : date) (v w : Z) (acc : list day_sums)
  : list day_sums :=
  match acc with
  | [] => [(d, (v, w))]
  | (d', (v', w')) :: acc' =>
      if date_eqb d d' then (d', (v' + v, w' + w)) :: acc'
      else if date_leb d d' then (d, (v, w)) :: acc
      else (d', (v', w')) :: add_to_day d v w acc'
  end.

Definition day_step (acc : list day_sums) (r : row) : list day_sums :=
  match Date r with
  | Some d =>
      add_to_day d (present (Total_calculated_value r))
                 (present (Metric_Tons r)) acc
  | None => acc
  end.

(** [filtered_df.groupby(filtered_df['Date'].dt.date).agg({'Total
    calculated value ($)': 'sum', 'Metric Tons': 'sum'}).reset_index()]:
    one entry per day in chronological order, rows without a date left
    out. *)
Definition daily_stats (filtered : list row) : list day_sums :=
  fold_left day_step filtered [].

(** The rows dated [d]. *)
Definition on_day (d : date) (df : list row) : list row :=
  filter (fun r => match Date r with
                   | Some x => date_eqb x d
                   | None => false
                   end) df.

(** The rows that have a date. *)
Definition dated (df : list row) : list row :=
  filter (fun r => match Date r with Some _ => true | None => false end) df.

(** What [update_dashboard] returns, each chart as the series it plots
    (an empty figure is the empty series): cards, buyers by volume,
    category and country counts, time series and table rows.  [None] is
    the "No data available" answer for an empty frame. *)
Record dashboard : Type := DashboardView
  { metrics_row : metrics;
    volume_chart : list (string * Z);
    category_chart : list (cell * nat);
    country_chart : list (cell * nat);
    time_series_chart : list day_sums;
    table_data : list row }.

Definition update_dashboard (df : list row) (st : filters) : option dashboard :=
  match df with
  | [] => None
  | _ =>
      let filtered := filtered_df st df in
      Some {| metrics_row := summarize filtered;
              volume_chart := top_buyers filtered;
              category_chart := category_dist filtered;
              country_chart := country_dist filtered;
              time_series_chart := daily_stats filtered;
              table_data := filtered |}
  end.

Local Close Scope Z_scope.

(** *** The resets as a reducer *)

(** What a fired button asks for. *)
Inductive intent : Type :=
| GlobalReset
| SingleReset (d : dimension)
| NoReset.

Definition intent_of (button_id : string) : intent :=
  if button_id =? "global-reset-btn" then GlobalReset
  else if button_id =? "start-date-reset" then SingleReset StartDate
  else if button_id =? "end-date-reset" then SingleReset EndDate
  else if button_id =? "buyer-reset" then SingleReset BuyerDim
  else if button_id =? "seller-reset" then SingleReset SellerDim
  else if button_id =? "hs-reset" then SingleReset HsCodeDim
  else if button_id =? "country-reset" then SingleReset CountryDim
  else if button_id =? "category-reset" then SingleReset CategoryDim
  else NoReset.

(** [v if v else ''] *)
Definition text_or_empty (v : option string) : option string :=
  if is_set v then v else Some "".

(** The current values as [handle_resets] reads them. *)
Definition current (st : filters) : filters :=
  Filters (text_or_empty (start_date st)) (text_or_empty (end_date st))
          (buyer st) (seller st) (hs_code st) (country st) (category st).

Definition apply_intent (i : intent) (st : filters) : filters :=
  match i with
  | GlobalReset => cleared
  | SingleReset d => with_value d (cleared_value d) (current st)
  | NoReset => current st
  end.

(** The intent of a callback: none fired, or the first that fired. *)
Definition fired (triggered : list string) : option intent :=
  match triggered with
  | [] => None
  | prop_id :: _ => Some (intent_of (split_head "." prop_id))
  end.

(** The number of rows counted in a tally. *)
Definition counted (s : list (cell * nat)) : nat :=
  fold_right (fun x acc => (snd x + acc)%nat) 0%nat s.

(** The count a tally holds for [c], 0 when it has none. *)
Fixpoint count_of (c : cell) (s : list (cell * nat)) : nat :=
  match s with
  | [] => 0
  | (c', n) :: s' => if cell_eqb c' c then n else count_of c s'
  end.

(** The sums the time series holds for a day. *)
Fixpoint sums_of (d : date) (s : list day_sums) : option (Z * Z) :=
  match s with
  | [] => None
  | (d', vw) :: s' => if date_eqb d' d then Some vw else sums_of d s'
  end.

(** The option list of the dropdown that feeds dimension [d]; the date
    inputs have none. *)
Definition choices_of (d : dimension) (o : dropdowns) : list choice :=
  match d with
  | BuyerDim => buyer_choices o
  | SellerDim => seller_choices o
  | HsCodeDim => hs_choices o
  | CountryDim => country_choices o
  | CategoryDim => category_choices o
  | StartDate | EndDate => []
  end.

End Dashboard.

(* ================================================================== *)
(** ** Pieces of a name, for reasoning about the normal form *)

Module Pieces.
Import PyStr Buyer.

(** The text a list of pieces spells. *)
Fixpoint flatten (ps : list piece) : string :=
  match ps with
  | [] => EmptyString
  | Word w :: ps' => w ++ flatten ps'
  | Mark c :: ps' => String c (flatten ps')
  end.

(** The pieces [without_suffix_words] keeps. *)
Fixpoint kept (after_suffix : bool) (ps : list piece) : list piece :=
  match ps with
  | [] => []
  | Word w :: ps' =>
      if existsb (String.eqb w) suffix_words
      then kept true ps'
      else Word w :: kept false ps'
  | Mark c :: ps' =>
      if after_suffix && (c =? ".")%char
      then kept false ps'
      else Mark c :: kept false ps'
  end.

(** A list of pieces as [pieces] cuts them: words are non-empty runs of
    word characters, marks are other characters, and no word follows a
    word ([after_word] tells that the piece before is a word). *)
Fixpoint canon (after_word : bool) (ps : list piece) : Prop :=
  match ps with
  | [] => True
  | Word w :: ps' =>
      after_word = false /\ w <> EmptyString /\ all_word w = true
      /\ canon true ps'
  | Mark c :: ps' => is_word c = false /\ canon false ps'
  end.

Definition is_suffix_word (p : piece) : bool :=
  match p with
  | Word w => existsb (String.eqb w) suffix_words
  | Mark _ => false
  end.

End Pieces.

Import PyStr Re Buyer Dates Board Samples Dashboard Pieces.

(* ================================================================== *)
(** * Properties *)

(** ** Buyer resolution *)

Lemma truthy_true_iff s : truthy s = true <-> s <> "".
Proof. destruct s; simpl; split; intro H; congruence. Qed.

Lemma truthy_false_iff s : truthy s = false <-> s = "".
Proof. destruct s; simpl; split; intro H; congruence. Qed.

Lemma rstrip_idem s : rstrip (rstrip s) = rstrip s.
Proof.
  induction s as [|c s IH]; simpl; auto.
  destruct (rstrip s) as [|c' r] eqn:E.
  - destruct (is_space c) eqn:Ec; simpl; auto. now rewrite Ec.
  - simpl in *. now rewrite IH.
Qed.

Lemma rstrip_head c s c' r :
  rstrip (String c s) = String c' r -> c' = c.
Proof.
  simpl. destruct (rstrip s); [destruct (is_space c)|]; congruence.
Qed.

Lemma lstrip_fixed c s : is_space c = false -> lstrip (String c s) = String c s.
Proof. intro H. simpl. now rewrite H. Qed.

Lemma lstrip_shape s :
  lstrip s = "" \/ exists c r, lstrip s = String c r /\ is_space c = false.
Proof.
  induction s as [|c s IH]; simpl; auto.
  destruct (is_space c) eqn:E; auto. right. eauto.
Qed.

Lemma strip_idem s : strip (strip s) = strip s.
Proof.
  unfold strip.
  destruct (lstrip_shape s) as [-> | (c & r & -> & Hc)]; [reflexivity|].
  destruct (rstrip (String c r)) as [|c' r'] eqn:E; [reflexivity|].
  pose proof (rstrip_head _ _ _ _ E) as ->.
  rewrite (lstrip_fixed _ _ Hc), <- E. apply rstrip_idem.
Qed.

Lemma field_text_stripped c : strip (field_text c) = field_text c.
Proof. unfold field_text. destruct (notna c); [apply strip_idem | reflexivity]. Qed.

Lemma distinct_true_iff x shipper :
  x <> "" /\ clean_name x <> clean_name shipper <->
  truthy x && negb (clean_name x =? clean_name shipper) = true.
Proof.
  rewrite andb_true_iff, negb_true_iff, truthy_true_iff, String.eqb_neq.
  tauto.
Qed.

Lemma determine_buyer_step1 row :
  let shipper := field_text (shipper_declared row) in
  let intl := field_text (international_competitor row) in
  intl <> "" /\ clean_name intl <> clean_name shipper ->
  determine_buyer row = intl.
Proof.
  intros shipper intl H. apply distinct_true_iff in H.
  unfold determine_buyer. fold shipper intl. now rewrite H.
Qed.

Lemma determine_buyer_step2 row :
  let shipper := field_text (shipper_declared row) in
  let intl := field_text (international_competitor row) in
  let dom := field_text (domestic_competitor row) in
  ~ (intl <> "" /\ clean_name intl <> clean_name shipper) ->
  dom <> "" /\ clean_name dom <> clean_name shipper ->
  determine_buyer row = dom.
Proof.
  intros shipper intl dom H1 H2. rewrite distinct_true_iff in H1, H2.
  apply not_true_is_false in H1.
  unfold determine_buyer. fold shipper intl dom. now rewrite H1, H2.
Qed.

(** C1. The buyer of a row is resolved by ordered precedence, first match
    winning, on the trimmed declarant texts: the international competitor
    when it is non-empty and normalises differently from the shipper; else
    the domestic competitor under the same test; else the international
    competitor when non-empty; else the domestic competitor when non-empty;
    else ["Unknown"].  The two worked rows of the specification resolve to
    ["Beta Inc"] and ["Unknown"]. *)
Theorem determine_buyer_precedence (row : declarants) :
  let shipper := field_text (shipper_declared row) in
  let intl := field_text (international_competitor row) in
  let dom := field_text (domestic_competitor row) in
  let distinct x := x <> "" /\ clean_name x <> clean_name shipper in
  (distinct intl -> determine_buyer row = intl)
  /\ (~ distinct intl -> distinct dom -> determine_buyer row = dom)
  /\ (~ distinct intl -> ~ distinct dom -> intl <> "" ->
      determine_buyer row = intl)
  /\ (~ distinct intl -> ~ distinct dom -> intl = "" -> dom <> "" ->
      determine_buyer row = dom)
  /\ (intl = "" -> dom = "" -> determine_buyer row = "Unknown")
  /\ determine_buyer
       (Declarants (Str "Acme Ltd") (Str "Acme Limited") (Str "Beta Inc"))
     = "Beta Inc"
  /\ determine_buyer (Declarants (Str "Acme") (Str "") (Str "")) = "Unknown".
Proof.
  intros shipper intl dom distinct.
  assert (Hd : forall x, distinct x <->
             truthy x && negb (clean_name x =? clean_name shipper) = true).
  { intro x. apply distinct_true_iff. }
  repeat split.
  - apply determine_buyer_step1.
  - apply determine_buyer_step2.
  - intros H1 H2 H3. rewrite Hd in H1, H2.
    apply not_true_is_false in H1, H2.
    unfold determine_buyer. fold shipper intl dom. rewrite H1, H2.
    apply truthy_true_iff in H3. now rewrite H3.
  - intros H1 H2 H3 H4. rewrite Hd in H1, H2.
    apply not_true_is_false in H1, H2.
    unfold determine_buyer. fold shipper intl dom. rewrite H1, H2.
    apply truthy_false_iff in H3. apply truthy_true_iff in H4.
    now rewrite H3, H4.
  - intros Hi Hdm. unfold determine_buyer. fold shipper intl dom.
    now rewrite Hi, Hdm.
Qed.

(** C9, as stated, fails: a competitor text with blanks around it wins
    step 1 and is stored without them. *)
Lemma buyer_drops_surrounding_blanks :
  let row := Declarants (Str "Acme") (Str " Beta Inc ") NaN in
  let intl := field_text (international_competitor row) in
  (intl <> "" /\ clean_name intl <> clean_name (field_text (shipper_declared row)))
  /\ determine_buyer row = "Beta Inc"
  /\ determine_buyer row <> py_str (international_competitor row).
Proof. vm_compute. repeat split; discriminate. Qed.

(** C9 (amended). When step 1 or step 2 fires, the stored buyer is the
    text of the chosen competitor field with its leading and trailing
    whitespace stripped, otherwise as it appeared (it is not normalised:
    only the comparison is); no resolved buyer carries whitespace at either
    end. *)
Theorem buyer_is_stripped_text (row : declarants) :
  let shipper := field_text (shipper_declared row) in
  let intl := field_text (international_competitor row) in
  let dom := field_text (domestic_competitor row) in
  let distinct x := x <> "" /\ clean_name x <> clean_name shipper in
  (distinct intl ->
   determine_buyer row = strip (py_str (international_competitor row)))
  /\ (~ distinct intl -> distinct dom ->
      determine_buyer row = strip (py_str (domestic_competitor row)))
  /\ strip (determine_buyer row) = determine_buyer row
  /\ determine_buyer (Declarants (Str "Acme") (Str "Beta Inc.") NaN)
     = "Beta Inc.".
Proof.
  intros shipper intl dom distinct.
  pose proof (determine_buyer_step1 row) as P1.
  pose proof (determine_buyer_step2 row) as P2.
  cbv zeta in P1, P2. fold shipper intl dom in P1, P2.
  assert (Hf : forall c, field_text c <> "" -> field_text c = strip (py_str c)).
  { intros c. unfold field_text. destruct (notna c); congruence. }
  repeat split.
  - intros H. rewrite (P1 H). apply Hf, H.
  - intros H1 H2. rewrite (P2 H1 H2). apply Hf, H2.
  - unfold determine_buyer.
    repeat match goal with
           | |- context [if ?b then _ else _] => destruct b
           end; auto using field_text_stripped.
Qed.

(** ** The loader keeps the four target codes *)

Lemma isin_In x xs : isin x xs = true <-> In x xs.
Proof.
  unfold isin. rewrite existsb_exists. split.
  - intros (y & Hy & E). apply String.eqb_eq in E. now subst.
  - intros H. exists x. split; [assumption | apply String.eqb_refl].
Qed.

Lemma filter_keep_all {A} (l : list A) : filter (fun _ => true) l = l.
Proof. induction l; simpl; congruence. Qed.

Lemma filter_twice {A} (f g : A -> bool) l :
  filter f (filter g l) = filter (fun x => g x && f x) l.
Proof.
  induction l as [|x l IH]; simpl; auto.
  destruct (g x); simpl; [destruct (f x)|]; now rewrite IH.
Qed.

Lemma filter_agree {A} (f g : A -> bool) l :
  (forall x, In x l -> f x = g x) -> filter f l = filter g l.
Proof.
  induction l as [|x l IH]; simpl; intros H; auto.
  rewrite (H x (or_introl eq_refl)), IH; auto.
Qed.

(** The filter chain is the blocks in the order of the code. *)
Lemma start_block st df :
  (if is_set (start_date st) then
     match parse_date_simple (start_date st) with
     | Some b => filter (fun r => on_or_after b (Date r)) df
     | None => df
     end
   else df) = apply_dimension st StartDate df.
Proof.
  unfold apply_dimension; simpl value_of.
  destruct (is_set (start_date st)); auto.
  destruct (parse_date_simple (start_date st)) eqn:E.
  - apply filter_agree. intros r _. simpl. now rewrite E.
  - rewrite <- (filter_keep_all df) at 1.
    apply filter_agree. intros r _. simpl. now rewrite E.
Qed.

Lemma end_block st df :
  (if is_set (end_date st) then
     match parse_date_simple (end_date st) with
     | Some b => filter (fun r => on_or_before b (Date r)) df
     | None => df
     end
   else df) = apply_dimension st EndDate df.
Proof.
  unfold apply_dimension; simpl value_of.
  destruct (is_set (end_date st)); auto.
  destruct (parse_date_simple (end_date st)) eqn:E.
  - apply filter_agree. intros r _. simpl. now rewrite E.
  - rewrite <- (filter_keep_all df) at 1.
    apply filter_agree. intros r _. simpl. now rewrite E.
Qed.

Lemma filtered_df_blocks st df :
  filtered_df st df = apply_in_order st all_dimensions df.
Proof.
  unfold filtered_df. cbv zeta. rewrite start_block, end_block. reflexivity.
Qed.

Lemma apply_dimension_filter st d df :
  apply_dimension st d df = filter (fun r => holds st r d) df.
Proof.
  unfold apply_dimension, holds.
  destruct (is_set (value_of d st)); simpl; auto.
  symmetry. apply filter_keep_all.
Qed.

Lemma apply_in_order_filter st ds : forall df,
  apply_in_order st ds df = filter (fun r => forallb (holds st r) ds) df.
Proof.
  unfold apply_in_order.
  induction ds as [|d ds IH]; intros df; simpl.
  - symmetry. apply filter_keep_all.
  - rewrite IH, apply_dimension_filter. apply filter_twice.
Qed.

Lemma filtered_df_filter st df :
  filtered_df st df = filter (passes st) df.
Proof. rewrite filtered_df_blocks. apply apply_in_order_filter. Qed.

Lemma filtered_df_In st df r :
  In r (filtered_df st df) <-> In r df /\ passes st r = true.
Proof. rewrite filtered_df_filter. apply filter_In. Qed.

Lemma passes_iff st r :
  passes st r = true <->
  forall d, is_set (value_of d st) = true -> matches st d r = true.
Proof.
  unfold passes, holds. rewrite forallb_forall. split.
  - intros H d Hd. specialize (H d).
    rewrite Hd in H. apply H. destruct d; simpl; tauto.
  - intros H d _. destruct (is_set (value_of d st)) eqn:E; simpl; auto.
Qed.

(** C3. Every record the loader retains, hence every record of any
    filtered result, has a classification code whose string form is one of
    854442, 854449, 854460, 740311; a sheet row is retained exactly when
    its code is in that list, the others are dropped without error. *)
Theorem allow_list_invariant
  (to_datetime : cell -> option date) (to_numeric : cell -> option Z)
  (sheet : option (list sheet_row)) (st : filters) (r : row) :
  let df := load_data to_datetime to_numeric sheet in
  (In r df -> In (py_str (HS_Code r)) target_hs_codes)
  /\ (In r (filtered_df st df) -> In (py_str (HS_Code r)) target_hs_codes)
  /\ (forall rows, sheet = Some rows ->
      (In r df <->
       exists raw, In raw rows
                   /\ r = load_row to_datetime to_numeric raw
                   /\ In (py_str (raw_HS_Code raw)) target_hs_codes)).
Proof.
  intros df.
  assert (H1 : In r df -> In (py_str (HS_Code r)) target_hs_codes).
  { unfold df, load_data. destruct sheet as [rows|]; [|contradiction].
    rewrite filter_In, isin_In. tauto. }
  split; [exact H1|]. split.
  - intros H. apply filtered_df_In in H. tauto.
  - intros rows ->. unfold df, load_data.
    rewrite filter_In, in_map_iff, isin_In. split.
    + intros ((raw & <- & Hin) & Hc). exists raw. auto.
    + intros (raw & Hin & -> & Hc). split; [exists raw; auto | exact Hc].
Qed.

(** ** Order of the filter blocks *)

(** C2. Filtering is a conjunctive intersection: running the blocks of the
    set dimensions in any order (any list holding every set dimension)
    gives the same frame as the order of the code, and a record survives
    exactly when it is in the frame and every set field matches it. *)
Theorem filters_commute (st : filters) (df : list row) (ds : list dimension)
  (Hall : forall d, is_set (value_of d st) = true -> In d ds) :
  apply_in_order st ds df = filtered_df st df
  /\ (forall r, In r (filtered_df st df) <->
        In r df /\
        forall d, is_set (value_of d st) = true -> matches st d r = true).
Proof.
  split.
  - rewrite filtered_df_filter, apply_in_order_filter.
    apply filter_agree. intros r _.
    apply eq_true_iff_eq. rewrite passes_iff, forallb_forall. split.
    + intros H d Hd. specialize (H d (Hall d Hd)).
      unfold holds in H. now rewrite Hd in H.
    + intros H d _. unfold holds.
      destruct (is_set (value_of d st)) eqn:E; simpl; auto.
  - intros r. rewrite filtered_df_In, passes_iff. tauto.
Qed.

(** Running the two blocks of the example in the reverse of the code's
    order. *)
Lemma filters_commute_witness :
  let st := Filters None None (Some "A") None None (Some "Italy") None in
  (forall d, is_set (value_of d st) = true -> In d [CountryDim; BuyerDim])
  /\ apply_in_order st [CountryDim; BuyerDim] frame = filtered_df st frame
  /\ (forall r, In r (filtered_df st frame) <->
        In r frame /\
        forall d, is_set (value_of d st) = true -> matches st d r = true).
Proof.
  intros st.
  assert (H : forall d, is_set (value_of d st) = true ->
                        In d [CountryDim; BuyerDim]).
  { intros d; destruct d; simpl; intros E;
      first [discriminate E | tauto]. }
  split; [exact H | exact (filters_commute st frame [CountryDim; BuyerDim] H)].
Defined.

(** ** Rows without a date *)

Lemma parse_some_is_set v b : parse_date_simple v = Some b -> is_set v = true.
Proof.
  destruct v as [s|]; simpl; [|discriminate].
  destruct (truthy s); simpl; [reflexivity | discriminate].
Qed.

(** C10. A record whose date is null (NaT after the coercion of the load)
    is kept whenever no date bound is in force, its fate then resting on
    the dropdown filters alone (and with none of them set the whole frame
    is kept and counted); as soon as a valid start or end bound is set it
    is excluded, a null date satisfying neither comparison. *)
Theorem null_date_rows (st : filters) (df : list row) (r : row)
  (Hnull : Date r = None) :
  (parse_date_simple (start_date st) = None ->
   parse_date_simple (end_date st) = None ->
   (In r (filtered_df st df) <->
    In r df /\
    forall d, is_date_dimension d = false ->
              is_set (value_of d st) = true -> matches st d r = true)
   /\ ((forall d, is_date_dimension d = false ->
                  is_set (value_of d st) = false) ->
       filtered_df st df = df
       /\ total_transactions st df = List.length df))
  /\ (parse_date_simple (start_date st) <> None
      \/ parse_date_simple (end_date st) <> None ->
      ~ In r (filtered_df st df)).
Proof.
  split.
  - intros Hs He.
    assert (Hdates : forall x d, is_date_dimension d = true ->
                                 matches st d x = true).
    { intros x d. destruct d; simpl; try discriminate; intros _.
      - now rewrite Hs.
      - now rewrite He. }
    split.
    + rewrite filtered_df_In, passes_iff. split.
      * intros (Hin & H). split; auto.
      * intros (Hin & H). split; auto. intros d Hd.
        destruct (is_date_dimension d) eqn:E; auto.
    + intros Hnone.
      assert (E : filtered_df st df = df).
      { rewrite filtered_df_filter. rewrite <- (filter_keep_all df) at 2.
        apply filter_agree. intros x _. apply passes_iff. intros d Hd.
        destruct (is_date_dimension d) eqn:Ed; auto.
        rewrite (Hnone d Ed) in Hd. discriminate. }
      split; [exact E|]. unfold total_transactions. now rewrite E.
  - intros Hb Hin. apply filtered_df_In in Hin. destruct Hin as (_ & Hp).
    rewrite passes_iff in Hp.
    destruct Hb as [Hb | Hb].
    + destruct (parse_date_simple (start_date st)) as [b|] eqn:E;
        [|congruence].
      specialize (Hp StartDate (parse_some_is_set _ _ E)).
      simpl in Hp. rewrite E, Hnull in Hp. discriminate.
    + destruct (parse_date_simple (end_date st)) as [b|] eqn:E;
        [|congruence].
      specialize (Hp EndDate (parse_some_is_set _ _ E)).
      simpl in Hp. rewrite E, Hnull in Hp. discriminate.
Qed.

Lemma null_date_rows_witness :
  Date undated = None
  /\ In undated (filtered_df unset frame)
  /\ total_transactions unset frame = 4%nat
  /\ ~ In undated
       (filtered_df
          (Filters (Some "01/01/2024") None None None None None None) frame).
Proof.
  split; [reflexivity|].
  pose proof (null_date_rows unset frame undated eq_refl) as [H _].
  destruct (H eq_refl eq_refl) as (Hin & Hall).
  split; [apply Hin; split;
          [simpl; tauto | intros d _ E; destruct d; discriminate E]|].
  split; [apply Hall; intros d _; destruct d; reflexivity|].
  apply (null_date_rows (Filters (Some "01/01/2024") None None None None None None)
                        frame undated eq_refl).
  left. discriminate.
Defined.

(** ** Resets *)

Lemma split_head_button d :
  split_head "." (reset_button d ++ ".n_clicks") = reset_button d.
Proof. destruct d; reflexivity. Qed.

(** What the reset of [d] returns for the other dimensions, on any state:
    the value as it was, the empty text for a date that is not set. *)
Lemma handle_resets_others (st : filters) (d d' : dimension)
  (others : list string) :
  d' <> d ->
  value_of d' (handle_resets ((reset_button d ++ ".n_clicks") :: others) st)
  = if is_date_dimension d' && negb (is_set (value_of d' st))
    then Some "" else value_of d' st.
Proof.
  intros Hne. unfold handle_resets. rewrite split_head_button.
  destruct d, d'; try congruence; simpl;
    try destruct (is_set (start_date st));
    try destruct (is_set (end_date st)); reflexivity.
Qed.

(** C7. The two date inputs are text inputs created with [value=''], and
    [handle_resets] writes only texts back to them, so the state the
    callback reads holds a text for either date.  On every such state the
    reset of one dimension clears that dimension's value (a date to the
    empty text, a dropdown to [None]) and returns every other value as it
    was; in particular the reset of the buyer leaves the country as it
    was.  The global reset returns all seven fields cleared in one
    result. *)
Theorem reset_frame (st : filters) (d : dimension) (others : list string)
  (Hstart : start_date st <> None) (Hend : end_date st <> None) :
  let st' := handle_resets ((reset_button d ++ ".n_clicks") :: others) st in
  value_of d st' = cleared_value d
  /\ (forall d', d' <> d -> value_of d' st' = value_of d' st)
  /\ country (handle_resets ("buyer-reset.n_clicks" :: others) st) = country st
  /\ handle_resets ("global-reset-btn.n_clicks" :: others) st = cleared
  /\ (forall d', value_of d' cleared = cleared_value d').
Proof.
  intros st'.
  split; [|split; [|split; [|split]]].
  - unfold st', handle_resets. rewrite split_head_button.
    destruct d; reflexivity.
  - intros d' Hne. unfold st'. rewrite (handle_resets_others st d d' others Hne).
    destruct d'; simpl in *; try reflexivity.
    + destruct (start_date st) as [[|c s]|]; simpl; congruence.
    + destruct (end_date st) as [[|c s]|]; simpl; congruence.
  - reflexivity.
  - reflexivity.
  - intros d'; destruct d'; reflexivity.
Qed.

Lemma reset_frame_witness :
  let st := Filters (Some "01/01/2024") (Some "") (Some "A") None None
                    (Some "Italy") None in
  let st' := handle_resets ["buyer-reset.n_clicks"] st in
  start_date st <> None /\ end_date st <> None
  /\ value_of BuyerDim st' = None
  /\ value_of StartDate st' = Some "01/01/2024"
  /\ value_of EndDate st' = Some ""
  /\ value_of CountryDim st' = Some "Italy".
Proof.
  intros st st'.
  assert (Hs : start_date st <> None) by (simpl; discriminate).
  assert (He : end_date st <> None) by (simpl; discriminate).
  destruct (reset_frame st BuyerDim [] Hs He) as (Hd & Hothers & _).
  split; [exact Hs|]. split; [exact He|]. split; [exact Hd|].
  split; [|split].
  - apply (Hothers StartDate). discriminate.
  - apply (Hothers EndDate). discriminate.
  - apply (Hothers CountryDim). discriminate.
Defined.


(** ** Date bounds *)

Lemma exec_Chr_Some {A} c cur (k : cursor -> option A) x :
  exec (Chr c) cur k = Some x ->
  exists s', ahead cur = String c s' /\ k (advance cur c s') = Some x.
Proof.
  simpl. destruct (ahead cur) as [|c' s']; [discriminate|].
  destruct (Ascii.eqb_spec c' c) as [->|]; [|discriminate]. eauto.
Qed.

Lemma exec_Cls_Some {A} p cur (k : cursor -> option A) x :
  exec (Cls p) cur k = Some x ->
  exists c s', ahead cur = String c s' /\ p c = true
               /\ k (advance cur c s') = Some x.
Proof.
  simpl. destruct (ahead cur) as [|c' s']; [discriminate|].
  destruct (p c') eqn:E; [|discriminate]. eauto.
Qed.

Lemma exec_Alt_Some {A} r1 r2 cur (k : cursor -> option A) x :
  exec (Alt r1 r2) cur k = Some x ->
  exec r1 cur k = Some x \/ exec r2 cur k = Some x.
Proof. simpl. destruct (exec r1 cur k); auto. Qed.

Lemma exec_Cat_eq {A} r1 r2 cur (k : cursor -> option A) :
  exec (Cat r1 r2) cur k = exec r1 cur (fun cur' => exec r2 cur' k).
Proof. reflexivity. Qed.

(** Take a successful run apart, one pattern constructor at a time. *)
Ltac exec_inv H :=
  repeat first
    [ rewrite exec_Cat_eq in H
    | apply exec_Alt_Some in H; destruct H as [H | H]
    | let s := fresh "s" in let E := fresh "E" in
      apply exec_Chr_Some in H; destruct H as (s & E & H);
      simpl in E; subst
    | let c := fresh "c" in let s := fresh "s" in
      let E := fresh "E" in let P := fresh "P" in
      apply exec_Cls_Some in H; destruct H as (c & s & E & P & H);
      simpl in E; subst ].

Lemma range_digit lo hi c :
  (48 <= lo)%N -> (hi <= 57)%N -> in_range lo hi c = true -> is_digit c = true.
Proof.
  unfold is_digit, in_range. rewrite !andb_true_iff, !N.leb_le. lia.
Qed.

Lemma exec_Group_eq {A} r cur (k : cursor -> option A) :
  exec (Group r) cur k =
  exec r (Cursor (before cur) EmptyString (ahead cur) (groups cur))
       (fun cur' => k (Cursor (before cur') (matched cur ++ matched cur')
                              (ahead cur') (groups cur' ++ [matched cur']))).
Proof. reflexivity. Qed.

(** Turn the range facts of a run into digit facts. *)
Ltac digit_facts :=
  repeat match goal with
         | P : in_range (ord _) (ord _) _ = true |- _ =>
             apply range_digit in P; [| now vm_compute ..]
         end.

(** Close a run lemma: the continuation's run is the hypothesis, the text
    and its shape follow by computation. *)
Ltac close_run H :=
  simpl in H; digit_facts; eexists _, _, _; (split; [|split]);
  [ .. | exact H];
  [ reflexivity
  | unfold year_text, day_text, month_text; cbn -[is_digit];
    repeat match goal with
           | P : is_digit _ = true |- _ => rewrite P
           end; reflexivity ].

Lemma month_run {A} p mt t gs (k : cursor -> option A) x :
  exec (Group month_re) (Cursor p mt t gs) k = Some x ->
  exists ms rest p',
    t = ms ++ rest /\ month_text ms = true
    /\ k (Cursor p' (mt ++ ms) rest (gs ++ [ms])) = Some x.
Proof.
  intros H. unfold month_re, range in H. rewrite exec_Group_eq in H.
  exec_inv H; close_run H.
Qed.

Lemma day_run {A} p mt t gs (k : cursor -> option A) x :
  exec (Group day_re) (Cursor p mt t gs) k = Some x ->
  exists ds rest p',
    t = ds ++ rest /\ day_text ds = true
    /\ k (Cursor p' (mt ++ ds) rest (gs ++ [ds])) = Some x.
Proof.
  intros H. unfold day_re, range, digit in H. rewrite exec_Group_eq in H.
  exec_inv H; close_run H.
Qed.

Lemma year_run {A} p mt t gs (k : cursor -> option A) x :
  exec (Group year_re) (Cursor p mt t gs) k = Some x ->
  exists ys rest p',
    t = ys ++ rest /\ year_text ys = true
    /\ k (Cursor p' (mt ++ ys) rest (gs ++ [ys])) = Some x.
Proof.
  intros H. unfold year_re, digit in H. rewrite exec_Group_eq in H.
  exec_inv H; close_run H.
Qed.

Lemma append_empty_r s : s ++ "" = s.
Proof. induction s; simpl; congruence. Qed.

Lemma append_assoc s t u : (s ++ t) ++ u = s ++ (t ++ u).
Proof. induction s; simpl; congruence. Qed.

(** What [strptime] accepts: month, day and year texts between slashes,
    naming a calendar day. *)
Lemma strptime_mdy_Some t b :
  strptime_mdy t = Some b ->
  exists ms ds ys,
    t = ms ++ "/" ++ ds ++ "/" ++ ys
    /\ month_text ms = true /\ day_text ds = true /\ year_text ys = true
    /\ b = MkDate (int_of ys) (int_of ms) (int_of ds)
    /\ valid_date (int_of ys) (int_of ms) (int_of ds) = true.
Proof.
  unfold strptime_mdy, match_all, match_here.
  destruct (exec mdy_re _ Some) as [cur|] eqn:H; [|discriminate].
  unfold mdy_re in H. rewrite exec_Cat_eq in H.
  apply month_run in H. destruct H as (ms & r1 & p1 & -> & Hm & H).
  rewrite exec_Cat_eq in H. apply exec_Chr_Some in H.
  destruct H as (r2 & E & H). simpl in E. subst r1.
  unfold advance in H. cbn [matched groups] in H. rewrite exec_Cat_eq in H.
  apply day_run in H. destruct H as (ds & r3 & p3 & -> & Hd & H).
  rewrite exec_Cat_eq in H. apply exec_Chr_Some in H.
  destruct H as (r4 & E & H). simpl in E. subst r3.
  unfold advance in H. cbn [matched groups] in H.
  apply year_run in H. destruct H as (ys & r5 & p5 & -> & Hy & H).
  injection H as <-. simpl.
  destruct r5 as [|c r5]; simpl; [|discriminate].
  destruct (valid_date _ _ _) eqn:V; [|discriminate].
  intros [= <-]. exists ms, ds, ys.
  repeat split; auto. now rewrite append_empty_r.
Qed.

Lemma digit_cases c :
  is_digit c = true ->
  In c ["0"; "1"; "2"; "3"; "4"; "5"; "6"; "7"; "8"; "9"]%char.
Proof.
  destruct c as [[] [] [] [] [] [] [] []]; intros H;
    first [discriminate H | simpl; tauto].
Qed.

(** Replace a digit by each of its ten values. *)
Ltac each_digit c :=
  match goal with
  | P : is_digit c = true |- _ =>
      apply digit_cases in P; simpl in P;
      repeat (destruct P as [P | P]; [subst c|]); [ .. | contradiction P]
  end.

(** Settle one concrete case of an acceptance lemma: the bound excludes
    it, or the run computes to the continuation. *)
Ltac resolve_run Hr k :=
  first [ discriminate Hr
        | reflexivity
        | cbn; destruct (k _); reflexivity ].

Lemma month_accept {A} ms p mt rest gs (k : cursor -> option A) :
  month_text ms = true ->
  (1 <=? int_of ms)%Z && (int_of ms <=? 12)%Z = true ->
  exec (Group month_re) (Cursor p mt (ms ++ String "/" rest) gs)
       (fun cur => exec (Chr "/") cur k)
  = k (Cursor (Some "/"%char) ((mt ++ ms) ++ "/") rest (gs ++ [ms])).
Proof.
  unfold month_text. intros Hm Hr.
  destruct ms as [|a [|b [|]]]; try discriminate Hm; simpl in Hm.
  - rewrite !andb_true_r in Hm.
    each_digit a; first [discriminate Hr | reflexivity].
  - rewrite !andb_true_r in Hm. apply andb_true_iff in Hm as [Ha Hb].
    each_digit a; each_digit b; resolve_run Hr k.
  - rewrite !andb_false_r in Hm. discriminate.
Qed.

Lemma day_accept {A} ds p mt rest gs (k : cursor -> option A) :
  day_text ds = true ->
  (1 <=? int_of ds)%Z && (int_of ds <=? 31)%Z = true ->
  exec (Group day_re) (Cursor p mt (ds ++ String "/" rest) gs)
       (fun cur => exec (Chr "/") cur k)
  = k (Cursor (Some "/"%char) ((mt ++ ds) ++ "/") rest (gs ++ [ds])).
Proof.
  unfold day_text, month_text. intros Hd Hr.
  destruct ds as [|a [|b [|]]]; try discriminate Hd; simpl in Hd.
  - rewrite !andb_true_r, orb_false_r in Hd.
    each_digit a; resolve_run Hr k.
  - rewrite !andb_true_r in Hd. apply orb_true_iff in Hd as [Hd | Hd].
    + apply andb_true_iff in Hd as [Ha Hb].
      each_digit a; each_digit b; resolve_run Hr k.
    + apply andb_true_iff in Hd as [Ha Hb].
      apply Ascii.eqb_eq in Ha. subst a.
      each_digit b; resolve_run Hr k.
  - rewrite !andb_false_r in Hd. discriminate Hd.
Qed.

Lemma year_accept ys p mt gs :
  year_text ys = true ->
  exists p',
    exec (Group year_re) (Cursor p mt ys gs) Some
    = Some (Cursor p' (mt ++ ys) "" (gs ++ [ys])).
Proof.
  unfold year_text. intros Hy.
  destruct ys as [|a [|b [|c [|d [|]]]]]; simpl in Hy;
    rewrite ?andb_false_r in Hy; try discriminate Hy.
  rewrite !andb_true_r in Hy.
  apply andb_true_iff in Hy as [Ha Hy]. apply andb_true_iff in Hy as [Hb Hy].
  apply andb_true_iff in Hy as [Hc Hd].
  eexists. unfold year_re, digit. simpl. rewrite Ha, Hb, Hc, Hd. reflexivity.
Qed.


Lemma valid_date_bounds y m d :
  valid_date y m d = true ->
  (1 <=? m)%Z && (m <=? 12)%Z = true /\ (1 <=? d)%Z && (d <=? 31)%Z = true.
Proof.
  unfold valid_date, days_in_month.
  rewrite !andb_true_iff, !Z.leb_le. intros (((((_ & _) & Hm1) & Hm2) & Hd1) & Hd2).
  repeat split; auto.
  destruct (m =? 2)%Z; [destruct (is_leap y)|]; try lia.
  destruct ((m =? 4)%Z || (m =? 6)%Z || (m =? 9)%Z || (m =? 11)%Z); lia.
Qed.

Lemma strptime_mdy_accept ms ds ys :
  month_text ms = true -> day_text ds = true -> year_text ys = true ->
  valid_date (int_of ys) (int_of ms) (int_of ds) = true ->
  strptime_mdy (ms ++ "/" ++ ds ++ "/" ++ ys)
  = Some (MkDate (int_of ys) (int_of ms) (int_of ds)).
Proof.
  intros Hm Hd Hy V. destruct (valid_date_bounds _ _ _ V) as [Bm Bd].
  unfold strptime_mdy, match_all, match_here.
  change (exec mdy_re ?c Some) with
    (exec (Group month_re) c (fun c1 => exec (Chr "/") c1
       (fun c2 => exec (Group day_re) c2 (fun c3 => exec (Chr "/") c3
          (fun c4 => exec (Group year_re) c4 Some))))).
  change (ms ++ "/" ++ ds ++ "/" ++ ys)
    with (ms ++ String "/" (ds ++ String "/" ys)).
  rewrite (month_accept ms _ _ _ _ _ Hm Bm). cbv beta.
  rewrite (day_accept ds _ _ _ _ _ Hd Bd). cbv beta.
  match goal with
  | |- context [exec (Group year_re) (Cursor ?p ?mt ys ?gs) Some] =>
      destruct (year_accept ys p mt gs Hy) as (p' & E); rewrite E
  end.
  simpl. now rewrite V.
Qed.

(** What [parse_date_simple] accepts, and as which day. *)
Lemma parse_date_simple_spec v b :
  parse_date_simple v = Some b <->
  exists s ms ds ys,
    v = Some s
    /\ strip s = ms ++ "/" ++ ds ++ "/" ++ ys
    /\ month_text ms = true /\ day_text ds = true /\ year_text ys = true
    /\ b = MkDate (int_of ys) (int_of ms) (int_of ds)
    /\ valid_date (int_of ys) (int_of ms) (int_of ds) = true.
Proof.
  split.
  - destruct v as [s|]; simpl; [|discriminate].
    destruct (truthy s); simpl; [|discriminate].
    intros H. apply strptime_mdy_Some in H.
    destruct H as (ms & ds & ys & H). exists s, ms, ds, ys. tauto.
  - intros (s & ms & ds & ys & -> & Hs & Hm & Hd & Hy & -> & V).
    simpl. destruct s as [|c s].
    + destruct ms; discriminate Hs.
    + cbn [truthy negb]. rewrite Hs. now apply strptime_mdy_accept.
Qed.

Lemma digit_not_space c : is_digit c = true -> is_space c = false.
Proof.
  unfold is_digit, is_space, in_range.
  rewrite andb_true_iff, !N.leb_le. intros [H1 H2].
  apply orb_false_iff. split; apply andb_false_iff; rewrite !N.leb_gt; lia.
Qed.

Lemma rstrip_keep s c :
  is_space c = false -> rstrip (s ++ String c "") = s ++ String c "".
Proof.
  intros Hc. induction s as [|a s IH]; simpl.
  - now rewrite Hc.
  - rewrite IH. destruct s; reflexivity.
Qed.

(** A text in the form MM/DD/YYYY, spelled out. *)
Lemma mmddyyyy_shape s :
  mmddyyyy_form s = true ->
  exists a b c d e f g h,
    s = String a (String b (String "/" (String c (String d (String "/"
          (String e (String f (String g (String h "")))))))))
    /\ all_digits (String a (String b "")) = true
    /\ all_digits (String c (String d "")) = true
    /\ all_digits (String e (String f (String g (String h "")))) = true.
Proof.
  unfold mmddyyyy_form. intros H.
  do 10 (destruct s as [|? s]; [discriminate H|]).
  destruct s; [|discriminate H]. cbn -[is_digit] in H.
  apply andb_true_iff in H as [H Hy]. apply andb_true_iff in H as [H S2].
  apply andb_true_iff in H as [H Hd]. apply andb_true_iff in H as [Hm S1].
  destruct (Ascii.eqb_spec a1 "/"); [subst a1 | discriminate S1].
  destruct (Ascii.eqb_spec a4 "/"); [subst a4 | discriminate S2].
  do 8 eexists. split; [reflexivity|]. auto.
Qed.

Lemma mmddyyyy_parse s :
  mmddyyyy_form s = true ->
  parse_date_simple (Some s) =
  let y := int_of (substring 6 4 s) in
  let m := int_of (substring 0 2 s) in
  let d := int_of (substring 3 2 s) in
  if valid_date y m d then Some (MkDate y m d) else None.
Proof.
  intros H. destruct (mmddyyyy_shape s H)
    as (a & b & c & d & e & f & g & h & -> & Hm & Hd & Hy).
  set (ms := String a (String b "")) in *.
  set (ds := String c (String d "")) in *.
  set (ys := String e (String f (String g (String h "")))) in *.
  assert (Hs : strip (ms ++ "/" ++ ds ++ "/" ++ ys) = ms ++ "/" ++ ds ++ "/" ++ ys).
  { subst ms ds ys. simpl in Hm, Hy.
    apply andb_true_iff in Hm as [Ha _].
    repeat (apply andb_true_iff in Hy; destruct Hy as [? Hy]).
    unfold strip. simpl lstrip. rewrite (digit_not_space a Ha).
    apply (rstrip_keep
             (String a (String b (String "/" (String c (String d (String "/"
                (String e (String f (String g "")))))))))).
    now apply digit_not_space. }
  change (String a _) with (ms ++ "/" ++ ds ++ "/" ++ ys).
  change (substring 6 4 _) with ys. change (substring 0 2 _) with ms.
  change (substring 3 2 _) with ds. cbv zeta.
  assert (Tm : month_text ms = true) by (unfold month_text; now rewrite Hm).
  assert (Td : day_text ds = true)
    by (unfold day_text, month_text; now rewrite Hd).
  assert (Ty : year_text ys = true) by (unfold year_text; now rewrite Hy).
  destruct (valid_date (int_of ys) (int_of ms) (int_of ds)) eqn:V.
  - apply parse_date_simple_spec. exists (ms ++ "/" ++ ds ++ "/" ++ ys), ms, ds, ys.
    repeat split; auto.
  - destruct (parse_date_simple _) as [x|] eqn:E; [exfalso | reflexivity].
    apply parse_date_simple_spec in E.
    destruct E as (s' & ms' & ds' & ys' & [= <-] & Hs' & Tm' & Td' & Ty' & _ & V').
    assert (Hs2 : ms ++ "/" ++ ds ++ "/" ++ ys = ms' ++ "/" ++ ds' ++ "/" ++ ys')
      by exact (eq_trans (eq_sym Hs) Hs').
    clear Hs'. rename Hs2 into Hs'.
    assert (ms' = ms /\ ds' = ds /\ ys' = ys) as (-> & -> & ->); [|congruence].
    subst ms ds ys. clear - Hs' Tm' Td' Hm Hd.
    unfold month_text in Tm'. unfold day_text, month_text in Td'.
    simpl in Hm, Hd.
    destruct ms' as [|m1 [|m2 [|]]]; simpl in Tm';
      rewrite ?andb_false_r in Tm'; try discriminate Tm';
      simpl in Hs'; injection Hs' as -> -> Hs';
      [rewrite andb_false_r in Hm; discriminate Hm|].
    destruct ds' as [|d1 [|d2 [|]]]; simpl in Td';
      rewrite ?andb_false_r in Td'; try discriminate Td';
      simpl in Hs'; injection Hs' as -> -> Hs';
      [rewrite andb_false_r in Hd; discriminate Hd|].
    subst ys'. auto.
Qed.

Lemma holds_other st d v r d' :
  d' <> d -> holds (with_value d v st) r d' = holds st r d'.
Proof. destruct d, d'; intros H; try reflexivity; now elim H. Qed.

Lemma holds_cleared st d r : holds (with_value d None st) r d = true.
Proof. destruct d; reflexivity. Qed.

(** The test of one dimension splits off the chain. *)
Lemma passes_split st d r :
  passes st r = passes (with_value d None st) r && holds st r d.
Proof.
  unfold passes. cbn [forallb all_dimensions].
  destruct d;
    repeat match goal with
           | |- context [holds (with_value ?d ?v st) r ?d'] =>
               first [ rewrite (holds_other st d v r d') by discriminate
                     | rewrite (holds_cleared st d r) ]
           end;
    destruct (holds st r StartDate), (holds st r EndDate),
      (holds st r BuyerDim), (holds st r SellerDim), (holds st r HsCodeDim),
      (holds st r CountryDim), (holds st r CategoryDim); reflexivity.
Qed.

Lemma filtered_df_split st d df :
  filtered_df st df =
  filter (fun r => holds st r d) (filtered_df (with_value d None st) df).
Proof.
  rewrite !filtered_df_filter, filter_twice.
  apply filter_agree. intros r _. apply passes_split.
Qed.

Lemma unparsed_bound_free st d df :
  is_date_dimension d = true ->
  parse_date_simple (value_of d st) = None ->
  filtered_df st df = filtered_df (with_value d None st) df.
Proof.
  intros Hd Hp. rewrite (filtered_df_split st d).
  rewrite <- (filter_keep_all (filtered_df (with_value d None st) df)) at 2.
  apply filter_agree. intros r _. unfold holds.
  destruct d; try discriminate Hd; simpl in *; rewrite Hp;
    apply orb_true_r.
Qed.

Lemma start_bound_filter st b df :
  parse_date_simple (start_date st) = Some b ->
  filtered_df st df =
  filter (fun r => on_or_after b (Date r))
         (filtered_df (with_value StartDate None st) df).
Proof.
  intros Hp. rewrite (filtered_df_split st StartDate).
  apply filter_agree. intros r _. unfold holds. simpl.
  now rewrite Hp, (parse_some_is_set _ _ Hp).
Qed.

Lemma end_bound_filter st b df :
  parse_date_simple (end_date st) = Some b ->
  filtered_df st df =
  filter (fun r => on_or_before b (Date r))
         (filtered_df (with_value EndDate None st) df).
Proof.
  intros Hp. rewrite (filtered_df_split st EndDate).
  apply filter_agree. intros r _. unfold holds. simpl.
  now rewrite Hp, (parse_some_is_set _ _ Hp).
Qed.

Lemma date_leb_refl b : date_leb b b = true.
Proof.
  unfold date_leb. rewrite !Z.eqb_refl, Z.leb_refl. simpl.
  now rewrite !orb_true_r.
Qed.

(** C6, as stated, fails: texts that are not in the form MM/DD/YYYY (a
    month and a day of one digit, or blanks around the date) are parsed
    and constrain the frame. *)
Lemma short_date_accepted :
  mmddyyyy_form "2/1/2024" = false
  /\ mmddyyyy_form " 01/15/2024 " = false
  /\ parse_date_simple (Some "2/1/2024") = Some (MkDate 2024 2 1)
  /\ parse_date_simple (Some " 01/15/2024 ") = Some (MkDate 2024 1 15)
  /\ List.length
       (filtered_df (with_value StartDate (Some "2/1/2024") unset) frame)
     = 1%nat
  /\ List.length (filtered_df unset frame) = 4%nat.
Proof. vm_compute. repeat split. Qed.

(** C6 (amended). The date-bound parser strips surrounding whitespace and
    accepts exactly the texts [strptime] takes for [%m/%d/%Y]: a month of
    one or two digits, a day of one or two digits (or a blank and a digit)
    and a year of four digits, between slashes, naming a calendar day.
    Every text in the form MM/DD/YYYY that names a calendar day is
    accepted as that day.  A missing or empty value and every other text
    give no bound, without error, and the remaining filters apply as if
    the bound were unset; ["13/40/2024"] is such a text.  A bound that
    parses keeps exactly the rows dated on or after it (start) or on or
    before it (end), the day of the bound included; ["01/15/2024"] keeps
    the rows dated 2024-01-15 or later. *)
Theorem date_bound_parsing :
  (forall v b,
     parse_date_simple v = Some b <->
     exists s ms ds ys,
       v = Some s
       /\ strip s = ms ++ "/" ++ ds ++ "/" ++ ys
       /\ month_text ms = true /\ day_text ds = true /\ year_text ys = true
       /\ b = MkDate (int_of ys) (int_of ms) (int_of ds)
       /\ valid_date (int_of ys) (int_of ms) (int_of ds) = true)
  /\ (forall s, mmddyyyy_form s = true ->
        parse_date_simple (Some s) =
        let y := int_of (substring 6 4 s) in
        let m := int_of (substring 0 2 s) in
        let d := int_of (substring 3 2 s) in
        if valid_date y m d then Some (MkDate y m d) else None)
  /\ parse_date_simple None = None
  /\ parse_date_simple (Some "") = None
  /\ parse_date_simple (Some "13/40/2024") = None
  /\ parse_date_simple (Some "2024-01-15") = None
  /\ parse_date_simple (Some "01/15/2024") = Some (MkDate 2024 1 15)
  /\ (forall st d df,
        is_date_dimension d = true ->
        parse_date_simple (value_of d st) = None ->
        filtered_df st df = filtered_df (with_value d None st) df)
  /\ (forall st b df,
        parse_date_simple (start_date st) = Some b ->
        filtered_df st df =
        filter (fun r => on_or_after b (Date r))
               (filtered_df (with_value StartDate None st) df))
  /\ (forall st b df,
        parse_date_simple (end_date st) = Some b ->
        filtered_df st df =
        filter (fun r => on_or_before b (Date r))
               (filtered_df (with_value EndDate None st) df))
  /\ (forall df r,
        In r (filtered_df (with_value StartDate (Some "01/15/2024") unset) df)
        <-> In r df /\ exists x, Date r = Some x
                                 /\ date_leb (MkDate 2024 1 15) x = true)
  /\ (forall b, on_or_after b (Some b) = true /\ on_or_before b (Some b) = true).
Proof.
  split; [exact parse_date_simple_spec|].
  split; [exact mmddyyyy_parse|].
  do 5 (split; [reflexivity|]).
  split; [exact unparsed_bound_free|].
  split; [exact start_bound_filter|].
  split; [exact end_bound_filter|].
  split.
  - intros df r.
    rewrite (start_bound_filter
               (with_value StartDate (Some "01/15/2024") unset)
               (MkDate 2024 1 15) df eq_refl).
    rewrite filter_In.
    assert (E : filtered_df
                  (with_value StartDate None
                     (with_value StartDate (Some "01/15/2024") unset)) df = df).
    { rewrite filtered_df_filter. rewrite <- (filter_keep_all df) at 2.
      now apply filter_agree. }
    rewrite E. unfold on_or_after. split.
    + intros (Hin & Hd). split; auto.
      destruct (Date r) as [x|]; [eauto | discriminate].
    + intros (Hin & x & -> & Hd). auto.
  - intros b. simpl. now rewrite date_leb_refl.
Qed.

(** ** Option lists *)

Lemma cell_eqb_eq a b : cell_eqb a b = true <-> a = b.
Proof.
  destruct a, b; simpl; try (split; [discriminate | congruence]).
  - tauto.
  - rewrite String.eqb_eq. split; congruence.
  - rewrite Z.eqb_eq. split; congruence.
Qed.

Section Unique.
Context {A : Type} (eqb : A -> A -> bool).
Hypothesis eqb_eq : forall a b, eqb a b = true <-> a = b.

Lemma seen_In x seen : existsb (eqb x) seen = true <-> In x seen.
Proof.
  rewrite existsb_exists. split.
  - intros (y & Hy & E). apply eqb_eq in E. now subst.
  - intros H. exists x. split; [assumption | now apply eqb_eq].
Qed.

Lemma unique_from_In x l : forall seen,
  In x (unique_from eqb seen l) <-> In x l /\ ~ In x seen.
Proof.
  induction l as [|y l IH]; intros seen; simpl; [tauto|].
  destruct (existsb (eqb y) seen) eqn:E.
  - apply seen_In in E. rewrite IH. split.
    + tauto.
    + intros ([-> | H] & Hn); [contradiction | tauto].
  - assert (Hy : ~ In y seen).
    { intros H. apply seen_In in H. congruence. }
    simpl. rewrite IH. simpl. split.
    + intros [-> | (H & Hn)]; [tauto|]. split; [tauto|]. intros H'. apply Hn. auto.
    + intros ([-> | H] & Hn); [tauto|].
      destruct (eqb y x) eqn:Eyx.
      * apply eqb_eq in Eyx. auto.
      * right. split; auto. intros [-> | H']; [|contradiction].
        assert (eqb x x = true) by now apply eqb_eq. congruence.
Qed.

Lemma unique_from_NoDup l : forall seen, NoDup (unique_from eqb seen l).
Proof.
  induction l as [|y l IH]; intros seen; simpl; [constructor|].
  destruct (existsb (eqb y) seen); [apply IH|].
  constructor; [|apply IH].
  rewrite unique_from_In. simpl. tauto.
Qed.

Lemma unique_In x l : In x (unique eqb l) <-> In x l.
Proof. unfold unique. rewrite unique_from_In. simpl. tauto. Qed.

Lemma unique_NoDup l : NoDup (unique eqb l).
Proof. apply unique_from_NoDup. Qed.

End Unique.

Lemma insert_sorted_perm x l : Permutation (insert_sorted x l) (x :: l).
Proof.
  induction l as [|y l IH]; simpl; auto.
  destruct (String.leb x y); auto.
  rewrite IH. apply perm_swap.
Qed.

Lemma sorted_perm l : Permutation (sorted l) l.
Proof.
  induction l as [|x l IH]; simpl; auto.
  rewrite insert_sorted_perm. auto.
Qed.

Lemma insert_sorted_Sorted x l :
  Sorted str_le l -> Sorted str_le (insert_sorted x l).
Proof.
  induction l as [|y l IH]; simpl; intros H.
  - repeat constructor.
  - destruct (String.leb x y) eqn:E.
    + constructor; [assumption|]. constructor. exact E.
    + inversion H as [|? ? Hs Hh]; subst. constructor; [auto|].
      assert (Hyx : str_le y x).
      { destruct (String.leb_total x y) as [C | C]; [congruence | exact C]. }
      destruct l as [|z l]; simpl.
      * constructor. exact Hyx.
      * destruct (String.leb x z); constructor; auto.
        inversion Hh; auto.
Qed.

Lemma sorted_Sorted l : Sorted str_le (sorted l).
Proof.
  induction l as [|x l IH]; simpl; [constructor|].
  now apply insert_sorted_Sorted.
Qed.

Lemma sorted_In x l : In x (sorted l) <-> In x l.
Proof.
  split; apply Permutation_in; [|symmetry]; apply sorted_perm.
Qed.

Lemma value_choices l : map value (choices l) = l.
Proof.
  unfold choices. rewrite map_map. simpl. apply map_id.
Qed.

Lemma choices_label o l : In o (choices l) -> label o = value o.
Proof.
  unfold choices. rewrite in_map_iff. intros (x & <- & _). reflexivity.
Qed.

Lemma dropna_In c l : In c (dropna l) <-> c <> NaN /\ In c l.
Proof.
  unfold dropna. rewrite filter_In. destruct c; simpl; split;
    intros [H1 H2]; split; auto; congruence.
Qed.

Lemma column_options_offers col narrowed :
  offers col narrowed (column_options col narrowed).
Proof.
  unfold offers, column_options. rewrite value_choices.
  split; [|split; [|split]].
  - intros v. rewrite sorted_In, in_map_iff. split.
    + intros (c & <- & Hc).
      rewrite (unique_In cell_eqb cell_eqb_eq), dropna_In, in_map_iff in Hc.
      destruct Hc as (Hn & r & <- & Hr). eauto.
    + intros (r & Hr & Hn & <-). exists (col r). split; auto.
      rewrite (unique_In cell_eqb cell_eqb_eq), dropna_In.
      split; auto. now apply in_map.
  - apply sorted_Sorted.
  - exists (unique cell_eqb (dropna (map col narrowed))).
    split; [apply unique_NoDup, cell_eqb_eq|]. split.
    + intros c. rewrite (unique_In cell_eqb cell_eqb_eq). apply dropna_In.
    + apply sorted_perm.
  - intros o. apply choices_label.
Qed.


Lemma buyer_options_values narrowed :
  map value (buyer_options narrowed) =
  sorted (filter (fun b => negb (b =? "Unknown"))
                 (unique String.eqb (map Buyer narrowed))).
Proof.
  unfold buyer_options. rewrite value_choices. f_equal.
  assert (D : forall l, dropna (map Str l) = map Str l).
  { induction l; simpl; congruence. }
  rewrite <- (map_map Buyer Str), D.
  assert (U : forall l seen,
             unique_from cell_eqb (map Str seen) (map Str l)
             = map Str (unique_from String.eqb seen l)).
  { induction l as [|x l IH]; intros seen; simpl; auto.
    assert (E : existsb (cell_eqb (Str x)) (map Str seen)
                = existsb (String.eqb x) seen).
    { induction seen; simpl; congruence. }
    rewrite E. destruct (existsb (String.eqb x) seen); simpl.
    - apply IH.
    - f_equal. apply (IH (x :: seen)). }
  unfold unique. rewrite (U _ []).
  generalize (unique_from String.eqb [] (map Buyer narrowed)).
  induction l as [|x l IH]; simpl; auto.
  destruct (negb (x =? "Unknown")); simpl; congruence.
Qed.




(** ** Grouped sums and the top-N series *)


Lemma label_lt_trans a b c : label_lt a b -> label_lt b c -> label_lt a c.
Proof.
  unfold label_lt. intros H1 H2.
  apply OrderedTypeEx.String_as_OT.cmp_lt in H1, H2. apply OrderedTypeEx.String_as_OT.cmp_lt.
  eapply OrderedTypeEx.String_as_OT.lt_trans; eauto.
Qed.

Lemma label_lt_neq a b : label_lt a b -> (b =? a)%string = false.
Proof.
  unfold label_lt. intros H. apply String.eqb_neq. intros ->.
  assert (E : String.compare a a = Eq)
    by now apply OrderedTypeEx.String_as_OT.cmp_eq.
  congruence.
Qed.

Lemma compare_Gt_lt a b : String.compare a b = Gt -> label_lt b a.
Proof.
  unfold label_lt. intros H. rewrite String.compare_antisym, H. reflexivity.
Qed.

Local Open Scope Z_scope.

Lemma lookup_above g s :
  Forall (fun y => label_lt g (fst y)) s -> lookup g s = None.
Proof.
  induction 1 as [|[k v] s H _ IH]; simpl; auto.
  simpl in H. now rewrite (label_lt_neq _ _ H).
Qed.

Lemma add_to_group_keys k v acc x :
  In x (add_to_group k v acc) -> fst x = k \/ In (fst x) (map fst acc).
Proof.
  induction acc as [|[k' v'] acc IH]; simpl.
  - intros [<- | []]. auto.
  - destruct (String.compare k k') eqn:E; simpl.
    + intros [<- | H]; simpl; auto. right. right. now apply in_map.
    + intros [<- | [<- | H]]; simpl; auto. right. right. now apply in_map.
    + intros [<- | H]; simpl; auto. destruct (IH H); auto.
Qed.

Lemma add_to_group_sorted k v acc :
  StronglySorted by_label acc -> StronglySorted by_label (add_to_group k v acc).
Proof.
  induction 1 as [|[k' v'] acc Hs IH Hf]; simpl.
  - repeat constructor.
  - destruct (String.compare k k') eqn:E.
    + apply String.compare_eq_iff in E. subst k'.
      constructor; auto.
    + constructor; [constructor; auto|].
      constructor; [exact E|].
      eapply Forall_impl; [|exact Hf]. intros y Hy.
      unfold by_label in *. simpl in *. eapply label_lt_trans; eauto.
    + constructor; auto.
      apply Forall_forall. intros x Hx.
      destruct (add_to_group_keys _ _ _ _ Hx) as [Hk | Hk].
      * unfold by_label. simpl. rewrite Hk. now apply compare_Gt_lt.
      * apply in_map_iff in Hk. destruct Hk as (y & Ey & Hy).
        rewrite Forall_forall in Hf. specialize (Hf y Hy).
        unfold by_label in *. now rewrite <- Ey.
Qed.

Lemma add_to_group_lookup k v acc g :
  StronglySorted by_label acc ->
  lookup g (add_to_group k v acc) =
  if (k =? g)%string
  then Some (match lookup g acc with Some v0 => v0 + v | None => v end)
  else lookup g acc.
Proof.
  induction 1 as [|[k' v'] acc Hs IH Hf]; simpl.
  - destruct (k =? g)%string; reflexivity.
  - destruct (String.compare k k') eqn:E; simpl.
    + apply String.compare_eq_iff in E. subst k'.
      destruct (k =? g)%string; reflexivity.
    + destruct (String.eqb_spec k g) as [->|Hne]; [|reflexivity].
      rewrite (label_lt_neq _ _ E).
      rewrite lookup_above; [reflexivity|].
      eapply Forall_impl; [|exact Hf]. intros y Hy.
      unfold by_label in Hy. simpl in Hy. eapply label_lt_trans; eauto.
    + destruct (String.eqb_spec k' g) as [->|Hne].
      * apply compare_Gt_lt in E. apply label_lt_neq in E. now rewrite E.
      * exact IH.
Qed.

Lemma lookup_In g v s :
  StronglySorted by_label s -> (In (g, v) s <-> lookup g s = Some v).
Proof.
  induction 1 as [|[k w] s Hs IH Hf]; simpl.
  - split; [tauto | discriminate].
  - destruct (String.eqb_spec k g) as [->|Hne].
    + split.
      * intros [[= ->] | H]; [reflexivity|].
        rewrite Forall_forall in Hf. specialize (Hf _ H).
        unfold by_label in Hf. simpl in Hf. apply label_lt_neq in Hf.
        rewrite String.eqb_refl in Hf. discriminate.
      * intros [= ->]. auto.
    + rewrite <- IH. split; [|tauto].
      intros [[= -> ->] | H]; [now elim Hne | exact H].
Qed.

Section Grouping.
Variable key : row -> option string.
Variable val : row -> option Z.

Lemma fold_groups_sorted df : forall acc,
  StronglySorted by_label acc ->
  StronglySorted by_label (fold_left (group_step key val) df acc).
Proof.
  induction df as [|r df IH]; intros acc H; simpl; auto.
  apply IH. unfold group_step. destruct (key r); auto using add_to_group_sorted.
Qed.

Lemma fold_groups_lookup g df : forall acc,
  StronglySorted by_label acc ->
  lookup g (fold_left (group_step key val) df acc) =
  match lookup g acc with
  | Some v0 => Some (v0 + group_total key val g df)
  | None => if existsb (String.eqb g) (labels key df)
            then Some (group_total key val g df) else None
  end.
Proof.
  induction df as [|r df IH]; intros acc H; simpl.
  - destruct (lookup g acc); [f_equal; lia | reflexivity].
  - rewrite IH
      by (unfold group_step; destruct (key r); auto using add_to_group_sorted).
    unfold group_step. destruct (key r) as [k|]; simpl.
    + rewrite add_to_group_lookup by assumption.
      rewrite (String.eqb_sym g k).
      destruct (k =? g)%string; simpl.
      * destruct (lookup g acc); f_equal; lia.
      * destruct (lookup g acc); reflexivity.
    + destruct (lookup g acc); reflexivity.
Qed.

Lemma groupby_sum_sorted df : StronglySorted by_label (groupby_sum key val df).
Proof. apply fold_groups_sorted. constructor. Qed.

Lemma groupby_sum_In g v df :
  In (g, v) (groupby_sum key val df) <->
  In g (labels key df) /\ v = group_total key val g df.
Proof.
  rewrite (lookup_In g v _ (groupby_sum_sorted df)).
  unfold groupby_sum.
  rewrite fold_groups_lookup by constructor. simpl.
  destruct (existsb (String.eqb g) (labels key df)) eqn:E.
  - apply isin_In in E. split.
    + intros [= <-]. auto.
    + intros (_ & ->). reflexivity.
  - split; [discriminate|]. intros (Hin & _).
    apply isin_In in Hin. unfold isin in Hin. congruence.
Qed.

End Grouping.

Lemma insert_desc_perm x l : Permutation (insert_desc x l) (x :: l).
Proof.
  induction l as [|y l IH]; simpl; auto.
  destruct (snd x <? snd y); auto.
  rewrite IH. apply perm_swap.
Qed.

Lemma sort_desc_perm l : Permutation (sort_desc l) l.
Proof.
  induction l as [|x l IH]; simpl; auto.
  rewrite insert_desc_perm. auto.
Qed.

Lemma ranks_before_snd x y : ranks_before x y -> snd y <= snd x.
Proof. unfold ranks_before. lia. Qed.

Lemma insert_desc_sorted x l :
  StronglySorted ranks_before l ->
  Forall (fun y => label_lt (fst x) (fst y)) l ->
  StronglySorted ranks_before (insert_desc x l).
Proof.
  induction 1 as [|y l Hs IH Hf]; intros Hl; simpl.
  - repeat constructor.
  - inversion Hl as [|? ? Hy Hl']; subst.
    destruct (snd x <? snd y) eqn:E.
    + apply Z.ltb_lt in E. constructor; auto.
      eapply Permutation_Forall; [symmetry; apply insert_desc_perm|].
      constructor; [left; exact E | exact Hf].
    + apply Z.ltb_ge in E. constructor; [constructor; auto|].
      constructor.
      * unfold ranks_before.
        destruct (Z.eq_dec (snd x) (snd y)); [right; auto | left; lia].
      * rewrite Forall_forall in *. intros z Hz.
        pose proof (ranks_before_snd _ _ (Hf z Hz)).
        unfold ranks_before.
        destruct (Z.eq_dec (snd x) (snd z)); [right; auto | left; lia].
Qed.

(** Sorting a label-ordered series by descending sum leaves equal sums in
    label order. *)
Lemma sort_desc_sorted l :
  StronglySorted by_label l -> StronglySorted ranks_before (sort_desc l).
Proof.
  induction 1 as [|x l Hs IH Hf]; simpl; [constructor|].
  apply insert_desc_sorted; auto.
  eapply Permutation_Forall; [symmetry; apply sort_desc_perm | exact Hf].
Qed.

Lemma StronglySorted_app_inv {A} (R : A -> A -> Prop) l1 l2 :
  StronglySorted R (l1 ++ l2) ->
  StronglySorted R l1
  /\ forall x y, In x l1 -> In y l2 -> R x y.
Proof.
  induction l1 as [|a l1 IH]; simpl; intros H.
  - split; [constructor | contradiction].
  - inversion H as [|? ? Hs Hf]; subst. destruct (IH Hs) as [H1 H2].
    rewrite Forall_app in Hf. destruct Hf as [Hf1 Hf2]. split.
    + constructor; auto.
    + intros x y [<- | Hx] Hy; auto.
      rewrite Forall_forall in Hf2. auto.
Qed.

Lemma by_label_NoDup l : StronglySorted by_label l -> NoDup (map fst l).
Proof.
  induction 1 as [|x l Hs IH Hf]; simpl; constructor; auto.
  rewrite in_map_iff. intros (y & E & Hy).
  rewrite Forall_forall in Hf. specialize (Hf y Hy).
  unfold by_label in Hf. rewrite E in Hf. apply label_lt_neq in Hf.
  rewrite String.eqb_refl in Hf. discriminate.
Qed.

Lemma firstn_incl_In {A} n (l : list A) x : In x (firstn n l) -> In x l.
Proof. rewrite <- (firstn_skipn n l) at 2. rewrite in_app_iff. auto. Qed.

(** C8, as stated, fails on ties: of two buyers with equal tonnage the
    series keeps the one whose label sorts first, not the one met first. *)
Lemma tie_goes_to_smaller_label :
  topNBy (fun r => Some (Buyer r)) Metric_Tons 1 tie = [("A", 100)]
  /\ topNBy_as_met (fun r => Some (Buyer r)) Metric_Tons 1 tie = [("B", 100)]
  /\ map Buyer tie = ["B"; "A"].
Proof. vm_compute. repeat split. Qed.

(** C8 (amended). The top-N series groups the rows by label, sums the
    values present per group and returns the [n] groups with the largest
    sums, largest first, equal sums in ascending order of label: every
    entry is a label of the frame with its group's sum, the entries are
    strictly ranked (so no label occurs twice), there are [n] of them or
    as many as there are groups, and every group left out ranks after
    every entry.  For buyers A (100 tons), B (50) and C (150) the top 2 by
    volume is [(C, 150); (A, 100)]. *)
Theorem topNBy_ranked (key : row -> option string) (val : row -> option Z)
  (n : nat) (df : list row) :
  let top := topNBy key val n df in
  (forall g v, In (g, v) top ->
               In g (labels key df) /\ v = group_total key val g df)
  /\ StronglySorted ranks_before top
  /\ NoDup (map fst top)
  /\ List.length top
     = Nat.min n (List.length (unique String.eqb (labels key df)))
  /\ (forall g, In g (labels key df) -> ~ In g (map fst top) ->
                forall x, In x top ->
                          ranks_before x (g, group_total key val g df))
  /\ topNBy (fun r => Some (Buyer r)) Metric_Tons 2 abc
     = [("C", 150); ("A", 100)]
  /\ top_buyers abc = [("C", 150); ("A", 100); ("B", 50)].
Proof.
  intros top.
  set (G := groupby_sum key val df).
  assert (HG : StronglySorted by_label G) by apply groupby_sum_sorted.
  assert (HS : StronglySorted ranks_before (sort_desc G))
    by now apply sort_desc_sorted.
  assert (Htop : top = firstn n (sort_desc G)) by reflexivity.
  assert (Hin : forall x, In x top -> In x G).
  { intros x Hx. rewrite Htop in Hx. apply firstn_incl_In in Hx.
    eapply Permutation_in; [apply sort_desc_perm | exact Hx]. }
  rewrite <- (firstn_skipn n (sort_desc G)) in HS.
  apply StronglySorted_app_inv in HS. destruct HS as [HS1 HS2].
  rewrite <- Htop in HS1, HS2.
  split; [|split; [|split; [|split; [|split; [|split]]]]].
  - intros g v Hx. apply Hin in Hx. now apply groupby_sum_In in Hx.
  - exact HS1.
  - assert (N : NoDup (map fst (sort_desc G))).
    { eapply Permutation_NoDup; [|apply (by_label_NoDup G HG)].
      apply Permutation_map. symmetry. apply sort_desc_perm. }
    rewrite <- (firstn_skipn n (sort_desc G)), map_app in N.
    apply NoDup_app_remove_r in N. now rewrite Htop.
  - rewrite Htop, length_firstn. f_equal.
    rewrite (Permutation_length (sort_desc_perm G)).
    rewrite <- (length_map fst G).
    apply Permutation_length, NoDup_Permutation.
    + now apply by_label_NoDup.
    + apply unique_NoDup, String.eqb_eq.
    + intros g. rewrite (unique_In String.eqb String.eqb_eq), in_map_iff.
      split.
      * intros ([g' v] & <- & Hx). now apply groupby_sum_In in Hx.
      * intros Hg. exists (g, group_total key val g df). split; auto.
        apply groupby_sum_In. auto.
  - intros g Hg Hout x Hx. apply HS2; auto.
    assert (Hall : In (g, group_total key val g df) (sort_desc G)).
    { eapply Permutation_in; [symmetry; apply sort_desc_perm|].
      apply groupby_sum_In. auto. }
    rewrite <- (firstn_skipn n (sort_desc G)), in_app_iff in Hall.
    destruct Hall as [Hk | Hk]; auto.
    exfalso. apply Hout. rewrite Htop.
    change g with (fst (g, group_total key val g df)). now apply in_map.
  - reflexivity.
  - reflexivity.
Qed.

Local Close Scope Z_scope.

(** ** The name normaliser *)

Lemma exec_WordB_Some {A} cur (k : cursor -> option A) x :
  exec WordB cur k = Some x ->
  at_boundary (before cur) (ahead cur) = true /\ k cur = Some x.
Proof. simpl. destruct (at_boundary _ _); [auto | discriminate]. Qed.

Lemma negb_word_ahead r : negb (word_ahead r) = true -> word_ahead r = false.
Proof. now destruct (word_ahead r). Qed.

(** Name the suffix word a text starts with. *)
Ltac pick_suffix_word r :=
  first [ exists "LTD", r; split; [reflexivity|]
        | exists "LLC", r; split; [reflexivity|]
        | exists "INC", r; split; [reflexivity|]
        | exists "CO", r; split; [reflexivity|]
        | exists "COMPANY", r; split; [reflexivity|]
        | exists "LIMITED", r; split; [reflexivity|]
        | exists "PRIVATE", r; split; [reflexivity|] ].

(** A match of the suffix pattern starts with a suffix word that ends at
    a word boundary. *)
Lemma suffix_match_word prev s cur :
  match_here suffix_re prev s = Some cur ->
  exists t rest,
    s = t ++ rest /\ In t suffix_words /\ word_ahead rest = false
    /\ at_boundary prev s = true.
Proof.
  unfold match_here, suffix_re. cbv [suffix_words map alts lit].
  intros H. rewrite exec_Cat_eq in H.
  apply exec_WordB_Some in H. destruct H as (Hb & H).
  cbn [before ahead] in Hb.
  rewrite exec_Cat_eq, exec_Group_eq in H. cbn [before ahead groups] in H.
  exec_inv H;
    change (exec Eps ?c ?k) with (k c) in H; cbv beta in H;
    rewrite exec_Cat_eq in H; apply exec_WordB_Some in H;
    destruct H as (Hw & _); cbn in Hw; apply negb_word_ahead in Hw;
    match type of Hw with
    | word_ahead ?r = false => pick_suffix_word r
    end;
    (split; [simpl; tauto | split; [exact Hw | exact Hb]]).
Qed.

(** Where no word starts, the pattern does not match. *)
Lemma suffix_no_match prev s :
  at_boundary prev s = false \/ word_ahead s = false ->
  match_here suffix_re prev s = None.
Proof.
  intros H. destruct (match_here suffix_re prev s) as [cur|] eqn:E; auto.
  apply suffix_match_word in E.
  destruct E as (t & rest & -> & Ht & _ & Hb).
  destruct H as [H | H]; [congruence|].
  simpl in Ht.
  repeat (destruct Ht as [<- | Ht]; [discriminate H|]). contradiction.
Qed.

Lemma sub_scan_step r prev c s' :
  sub_scan r 0 prev (String c s') =
  match match_here r prev (String c s') with
  | Some cur =>
      match String.length (matched cur) with
      | S n => sub_scan r n (Some c) s'
      | O => String c (sub_scan r 0 (Some c) s')
      end
  | None => String c (sub_scan r 0 (Some c) s')
  end.
Proof. reflexivity. Qed.

Lemma sub_scan_skip r n p c s :
  sub_scan r (S n) p (String c s) = sub_scan r n (Some c) s.
Proof. reflexivity. Qed.

(** At the start of a suffix word that ends at a boundary the pattern
    matches the word, and the period behind it if there is one. *)
Lemma suffix_word_match prev t rest :
  word_before prev = false -> In t suffix_words -> word_ahead rest = false ->
  exists cur,
    match_here suffix_re prev (t ++ rest) = Some cur
    /\ matched cur = t ++ trailing_period rest.
Proof.
  intros Hp Ht Hr. simpl in Ht.
  repeat (destruct Ht as [<- | Ht]); try contradiction.
  all: unfold match_here; destruct rest as [|c rest']; simpl in Hr.
  all: do 2 (cbn; cbv [at_boundary]; cbn; rewrite ?Hp, ?Hr); cbn.
  all: try (eexists; split; reflexivity).
  all: match goal with
       | _ : is_word ?c = false |- _ =>
           destruct (Ascii.eqb_spec c ".") as [->|_];
           eexists; split; reflexivity
       end.
Qed.

(** Scanning a suffix word drops it, with the period behind it, and goes
    on behind them. *)
Lemma scan_suffix_word prev t rest :
  word_before prev = false -> In t suffix_words -> word_ahead rest = false ->
  exists p,
    sub_scan suffix_re 0 prev (t ++ rest)
    = sub_scan suffix_re 0 p (drop (String.length (trailing_period rest)) rest)
    /\ (trailing_period rest = "." -> p = Some "."%char).
Proof.
  intros Hp Ht Hr.
  destruct (suffix_word_match prev t rest Hp Ht Hr) as (cur & E & Em).
  simpl in Ht.
  repeat (destruct Ht as [<- | Ht]); try contradiction.
  all: simpl append in E; simpl append; rewrite sub_scan_step, E, Em.
  all: destruct rest as [|c rest']; cbn [trailing_period];
    [|destruct (Ascii.eqb_spec c ".") as [->|Hc]];
    cbn [append String.length drop]; rewrite ?sub_scan_skip.
  all: eexists; split; [reflexivity|]; try reflexivity; discriminate.
Qed.

Lemma scan_nonword prev c s :
  is_word c = false ->
  sub_scan suffix_re 0 prev (String c s)
  = String c (sub_scan suffix_re 0 (Some c) s).
Proof.
  intros Hc. rewrite sub_scan_step, suffix_no_match; [reflexivity|].
  right. exact Hc.
Qed.

Lemma scan_midword u : forall prev v,
  word_before prev = true -> all_word u = true ->
  exists p, sub_scan suffix_re 0 prev (u ++ v) = u ++ sub_scan suffix_re 0 p v.
Proof.
  induction u as [|c u IH]; intros prev v Hp Hu.
  - exists prev. reflexivity.
  - simpl in Hu. apply andb_true_iff in Hu as [Hc Hu].
    destruct (IH (Some c) v Hc Hu) as (p & E). exists p.
    change (String c u ++ v) with (String c (u ++ v)).
    rewrite sub_scan_step, suffix_no_match, E; [reflexivity|].
    left. unfold at_boundary. simpl. now rewrite Hp, Hc.
Qed.

Lemma word_split_unique w : forall t rest rest',
  w ++ rest = t ++ rest' ->
  all_word w = true -> all_word t = true ->
  word_ahead rest = false -> word_ahead rest' = false ->
  w = t.
Proof.
  induction w as [|c w IH]; intros [|d t] rest rest' E Hw Ht Hr Hr'; simpl in *.
  - reflexivity.
  - subst rest. simpl in Hr. apply andb_true_iff in Ht as [Hd _]. congruence.
  - subst rest'. simpl in Hr'. apply andb_true_iff in Hw as [Hc _]. congruence.
  - injection E as -> E.
    apply andb_true_iff in Hw as [_ Hw]. apply andb_true_iff in Ht as [_ Ht].
    f_equal. eauto.
Qed.

Lemma word_split s : forall c,
  is_word c = true ->
  exists w rest,
    String c s = String c w ++ rest /\ all_word (String c w) = true
    /\ word_ahead rest = false /\ String.length rest <= String.length s.
Proof.
  induction s as [|d s IH]; intros c Hc.
  - exists "", "". simpl. rewrite Hc. auto.
  - destruct (is_word d) eqn:Hd.
    + destruct (IH d Hd) as (w & rest & E & Hw & Hr & Hl).
      exists (String d w), rest. simpl in *. rewrite E, Hc. simpl.
      repeat split; auto.
    + exists "", (String d s). simpl. rewrite Hc, Hd. auto.
Qed.

Lemma pieces_nonword rest :
  word_ahead rest = false ->
  match pieces rest with Word _ :: _ => False | _ => True end.
Proof.
  destruct rest as [|c rest]; simpl; auto.
  intros ->. exact I.
Qed.

Lemma pieces_word w : forall c rest,
  all_word (String c w) = true -> word_ahead rest = false ->
  pieces (String c w ++ rest) = Word (String c w) :: pieces rest.
Proof.
  induction w as [|d w IH]; intros c rest Hw Hr; simpl in Hw.
  - apply andb_true_iff in Hw as [Hc _]. simpl. rewrite Hc.
    pose proof (pieces_nonword rest Hr) as Hn.
    destruct (pieces rest) as [|[|] ?]; [reflexivity | contradiction | reflexivity].
  - apply andb_true_iff in Hw as [Hc Hw].
    change (pieces (String c (String d w ++ rest)) =
            Word (String c (String d w)) :: pieces rest).
    cbn [pieces]. rewrite Hc. fold (pieces (String d w ++ rest)).
    now rewrite (IH d rest Hw Hr).
Qed.

Lemma suffix_words_all_word t : In t suffix_words -> all_word t = true.
Proof.
  simpl. intros H. repeat (destruct H as [<- | H]; [reflexivity|]).
  contradiction.
Qed.

Lemma scan_word prev c w rest :
  word_before prev = false -> all_word (String c w) = true ->
  existsb (String.eqb (String c w)) suffix_words = false ->
  word_ahead rest = false ->
  exists p,
    sub_scan suffix_re 0 prev (String c w ++ rest)
    = String c w ++ sub_scan suffix_re 0 p rest.
Proof.
  intros Hp Hw Hn Hr.
  assert (Hm : match_here suffix_re prev (String c w ++ rest) = None).
  { destruct (match_here _ _ _) as [cur|] eqn:E; auto.
    apply suffix_match_word in E.
    destruct E as (t & rest' & E & Ht & Hr' & _).
    assert (String c w = t).
    { eapply word_split_unique; eauto using suffix_words_all_word. }
    subst t. apply isin_In in Ht. unfold isin in Ht. congruence. }
  simpl in Hw. apply andb_true_iff in Hw as [Hc Hw].
  destruct (scan_midword w (Some c) rest Hc Hw) as (p & E).
  exists p. simpl append in *. now rewrite sub_scan_step, Hm, E.
Qed.

(** The scan of [re.sub] removes exactly the suffix words, piece by piece. *)
Lemma sub_scan_pieces n : forall s prev,
  String.length s <= n ->
  word_before prev = false \/ word_ahead s = false ->
  sub_scan suffix_re 0 prev s = without_suffix_words false (pieces s).
Proof.
  induction n as [|n IH]; intros s prev Hl Hs.
  - destruct s; [reflexivity | simpl in Hl; lia].
  - destruct s as [|c s]; [reflexivity|].
    simpl in Hl. destruct (is_word c) eqn:Hc.
    + destruct Hs as [Hp | Hs]; [|simpl in Hs; congruence].
      destruct (word_split s c Hc) as (w & rest & E & Hw & Hr & Hlr).
      rewrite E, (pieces_word w c rest Hw Hr).
      cbn [without_suffix_words].
      destruct (existsb (String.eqb (String c w)) suffix_words) eqn:Ht.
      * apply isin_In in Ht.
        destruct (scan_suffix_word prev _ rest Hp Ht Hr) as (p & Es & Hdot).
        rewrite Es. destruct rest as [|d rest'].
        -- reflexivity.
        -- simpl in Hr. simpl in Hlr. cbn [trailing_period] in *.
           cbn [pieces]. rewrite Hr. cbn [without_suffix_words andb].
           destruct (Ascii.eqb_spec d ".") as [->|Hd].
           ++ rewrite (Hdot eq_refl). cbn [String.length drop].
              apply IH; [lia | left; reflexivity].
           ++ cbn [String.length drop].
              rewrite (IH (String d rest') p); [|simpl; lia | right; exact Hr].
              cbn [pieces]. rewrite Hr. reflexivity.
      * destruct (scan_word prev c w rest Hp Hw Ht Hr) as (p & Es).
        rewrite Es. f_equal. apply IH; [lia | right; exact Hr].
    + rewrite (scan_nonword prev c s Hc). cbn [pieces]. rewrite Hc.
      cbn [without_suffix_words andb]. f_equal.
      apply IH; [lia | left; exact Hc].
Qed.

Lemma clean_name_normalize name : clean_name name = normalize name.
Proof.
  unfold clean_name, normalize, sub_empty. f_equal.
  apply (sub_scan_pieces (String.length (upper name))); auto.
Qed.

Lemma upper_char_word c : is_word c = true -> is_word (upper_char c) = true.
Proof.
  destruct c as [[] [] [] [] [] [] [] []]; intros H;
    first [discriminate H | reflexivity].
Qed.

Lemma upper_all_word w : all_word w = true -> all_word (upper w) = true.
Proof.
  induction w as [|c w IH]; simpl; auto.
  rewrite !andb_true_iff. intros [Hc Hw]. auto using upper_char_word.
Qed.

Lemma word_not_space c : is_word c = true -> is_space c = false.
Proof.
  destruct c as [[] [] [] [] [] [] [] []]; intros H;
    first [discriminate H | reflexivity].
Qed.

Lemma rstrip_all_word w : all_word w = true -> rstrip w = w.
Proof.
  induction w as [|c w IH]; simpl; auto.
  rewrite andb_true_iff. intros [Hc Hw]. rewrite (IH Hw).
  destruct w; [now rewrite (word_not_space c Hc) | reflexivity].
Qed.

Lemma strip_all_word w : all_word w = true -> strip w = w.
Proof.
  intros Hw. unfold strip.
  destruct w as [|c w]; [reflexivity|].
  pose proof Hw as Hw'. simpl in Hw'. apply andb_true_iff in Hw' as [Hc _].
  simpl lstrip. rewrite (word_not_space c Hc). now apply rstrip_all_word.
Qed.

(** C5. The name normaliser upper-cases its input, removes the suffix
    words LTD, LLC, INC, CO, COMPANY, LIMITED, PRIVATE where they stand as
    whole words, each with a period directly behind it, and trims the
    result: it agrees on every name with the normaliser that cuts the
    upper-cased name into words.  A single word that is not itself a
    suffix word is returned whole, so ["Incorporation LLC"] normalises to
    ["INCORPORATION"], not to the normal form of ["Orporation"], while
    ["Acme Co."] and ["ACME"] normalise alike; the empty name normalises
    to the empty name. *)
Theorem clean_name_whole_words :
  (forall name, clean_name name = normalize name)
  /\ (forall w, all_word w = true ->
        clean_name w =
        if existsb (String.eqb (upper w)) suffix_words then "" else upper w)
  /\ clean_name "Acme Co." = clean_name "ACME"
  /\ clean_name "Incorporation LLC" <> clean_name "Orporation"
  /\ clean_name "Incorporation LLC" = "INCORPORATION"
  /\ clean_name "INCORPORATION" = "INCORPORATION"
  /\ clean_name "" = "".
Proof.
  split; [exact clean_name_normalize|]. split.
  - intros w Hw. rewrite clean_name_normalize. unfold normalize.
    apply upper_all_word in Hw. destruct (upper w) as [|c u] eqn:E.
    + reflexivity.
    + rewrite <- (append_empty_r (String c u)) at 1.
      rewrite (pieces_word u c "" Hw eq_refl). cbn [pieces without_suffix_words].
      destruct (existsb (String.eqb (String c u)) suffix_words); [reflexivity|].
      rewrite append_empty_r. now apply strip_all_word.
  - repeat split. vm_compute. discriminate.
Qed.

(* ================================================================== *)
(** * Further properties of the code *)

(** ** The filter chain as an operation on frames *)

Lemma passes_idem st r : passes st r && passes st r = passes st r.
Proof. now destruct (passes st r). Qed.

(** X1. Filtering a frame that is already filtered by the same state
    changes nothing. *)
Theorem filtered_df_idempotent (st : filters) (df : list row) :
  filtered_df st (filtered_df st df) = filtered_df st df.
Proof.
  rewrite !filtered_df_filter, filter_twice.
  apply filter_agree. intros r _. apply passes_idem.
Qed.

(** X2. The filter chain treats rows one by one: the filtered
    concatenation of two frames is the concatenation of the filtered
    frames, rows keep their order, and the result is never longer than
    the frame. *)
Theorem filtered_df_rowwise (st : filters) (df1 df2 : list row) :
  (filtered_df st (df1 ++ df2) = filtered_df st df1 ++ filtered_df st df2
   /\ (List.length (filtered_df st df1) <= List.length df1)%nat
   /\ (forall r, passes st r = true ->
         filtered_df st (df1 ++ r :: df2)
         = filtered_df st df1 ++ r :: filtered_df st df2)
   /\ (forall r, passes st r = false ->
         filtered_df st (df1 ++ r :: df2)
         = filtered_df st df1 ++ filtered_df st df2))%list.
Proof.
  rewrite !filtered_df_filter. split; [apply filter_app|].
  split; [apply filter_length_le|].
  split; intros r Hr; rewrite !filtered_df_filter, filter_app; simpl;
    now rewrite Hr.
Qed.

Lemma date_leb_iff a b :
  date_leb a b = true <->
  (year a < year b
   \/ (year a = year b
       /\ (month a < month b \/ (month a = month b /\ day a <= day b))))%Z.
Proof.
  unfold date_leb.
  rewrite !orb_true_iff, !andb_true_iff, !orb_true_iff, !andb_true_iff.
  rewrite !Z.ltb_lt, !Z.eqb_eq, Z.leb_le. tauto.
Qed.

Lemma date_leb_trans a b c :
  date_leb a b = true -> date_leb b c = true -> date_leb a c = true.
Proof. rewrite !date_leb_iff. lia. Qed.

(** X3. An inverted date range shows nothing: when both bounds parse and
    the start bound is later than the end bound, no row passes. *)
Theorem inverted_range_empty (st : filters) (df : list row) (a b : date)
  (Hstart : parse_date_simple (start_date st) = Some a)
  (Hend : parse_date_simple (end_date st) = Some b)
  (Hinv : date_leb a b = false) :
  filtered_df st df = [].
Proof.
  rewrite filtered_df_filter.
  destruct (filter (passes st) df) as [|r l] eqn:E; [reflexivity|].
  exfalso.
  assert (Hr : In r (filter (passes st) df)) by (rewrite E; now left).
  apply filter_In in Hr. destruct Hr as (_ & Hp).
  rewrite passes_iff in Hp.
  pose proof (Hp StartDate (parse_some_is_set _ _ Hstart)) as H1.
  pose proof (Hp EndDate (parse_some_is_set _ _ Hend)) as H2.
  simpl in H1, H2. rewrite Hstart in H1. rewrite Hend in H2.
  destruct (Date r) as [x|]; simpl in H1, H2; [|discriminate].
  rewrite (date_leb_trans a x b H1 H2) in Hinv. discriminate.
Qed.

Lemma inverted_range_empty_witness :
  let st := Filters (Some "02/01/2024") (Some "01/15/2024")
                    None None None None None in
  date_leb (MkDate 2024 2 1) (MkDate 2024 1 15) = false
  /\ filtered_df st frame = [].
Proof.
  intros st. split; [reflexivity|].
  exact (inverted_range_empty st frame (MkDate 2024 2 1) (MkDate 2024 1 15)
           eq_refl eq_refl eq_refl).
Defined.

(** ** Resets as a reducer, and what they do to the view *)

Lemma handle_resets_fired triggered st :
  handle_resets triggered st =
  match fired triggered with
  | None => cleared
  | Some i => apply_intent i st
  end.
Proof.
  destruct triggered as [|prop_id rest]; [reflexivity|].
  unfold handle_resets, fired, intent_of.
  repeat match goal with
         | |- context [if ?b then _ else _] =>
             lazymatch b with
             | String.eqb _ _ => destruct b; [reflexivity|]
             end
         end.
  reflexivity.
Qed.

Lemma text_or_empty_idem v : text_or_empty (text_or_empty v) = text_or_empty v.
Proof. destruct v as [[|c s]|]; reflexivity. Qed.

Lemma apply_intent_comm i j st :
  apply_intent i (apply_intent j st) = apply_intent j (apply_intent i st).
Proof.
  destruct st as [s e b se h co ca].
  destruct s as [[|? ?]|], e as [[|? ?]|];
    destruct i as [|[]|], j as [|[]|]; reflexivity.
Qed.

Lemma apply_intent_idem i st :
  apply_intent i (apply_intent i st) = apply_intent i st.
Proof.
  destruct st as [s e b se h co ca].
  destruct s as [[|? ?]|], e as [[|? ?]|]; destruct i as [|[]|]; reflexivity.
Qed.

Lemma apply_intent_cleared i : apply_intent i cleared = cleared.
Proof. destruct i as [|[]|]; reflexivity. Qed.

(** X4. The reset callback is an idempotent, order-independent reducer:
    handling the same trigger twice gives what handling it once gives,
    two triggers can be handled in either order, and whatever fired the
    two date values it returns are texts, never [None]. *)
Theorem handle_resets_algebra (t1 t2 : list string) (st : filters) :
  handle_resets t1 (handle_resets t1 st) = handle_resets t1 st
  /\ handle_resets t1 (handle_resets t2 st)
     = handle_resets t2 (handle_resets t1 st)
  /\ start_date (handle_resets t1 st) <> None
  /\ end_date (handle_resets t1 st) <> None.
Proof.
  rewrite !handle_resets_fired.
  destruct (fired t1) as [i|], (fired t2) as [j|];
    rewrite ?handle_resets_fired;
    repeat match goal with
           | |- context [fired ?t] => destruct (fired t)
           end;
    rewrite ?apply_intent_idem, ?apply_intent_cleared;
    (split; [reflexivity|]); (split; [try reflexivity; try apply apply_intent_comm|]).
  all: try (destruct i as [|[]|]; destruct st as [s e b se h co ca];
            destruct s as [[|? ?]|], e as [[|? ?]|]; split; discriminate).
  all: try (split; discriminate).
Qed.

Lemma parse_empty_text : parse_date_simple (Some "") = None.
Proof. reflexivity. Qed.

Lemma holds_current st r d : holds (current st) r d = holds st r d.
Proof.
  destruct d; try reflexivity; unfold holds, current, text_or_empty; simpl.
  - destruct (start_date st) as [[|c s]|]; reflexivity.
  - destruct (end_date st) as [[|c s]|]; reflexivity.
Qed.

Lemma holds_cleared_value st d r :
  holds (with_value d (cleared_value d) st) r d = true.
Proof. destruct d; reflexivity. Qed.

Lemma dimension_eq_dec (d d' : dimension) : {d = d'} + {d <> d'}.
Proof. decide equality. Qed.

Lemma holds_apply_intent i st r d :
  holds st r d = true -> holds (apply_intent i st) r d = true.
Proof.
  intros H. destruct i as [|d'|]; simpl.
  - destruct d; reflexivity.
  - destruct (dimension_eq_dec d d') as [<-|Hne].
    + apply holds_cleared_value.
    + rewrite holds_other by exact Hne. now rewrite holds_current.
  - now rewrite holds_current.
Qed.

(** X5. A reset never hides a row: every row shown under a state is still
    shown under the state any reset callback returns for it; after the
    global reset (or a callback that nothing triggered) the whole frame
    is shown, and a trigger that is no reset button leaves the view as it
    was. *)
Theorem reset_widens_view (triggered : list string) (st : filters)
  (df : list row) :
  (forall r, In r (filtered_df st df) ->
             In r (filtered_df (handle_resets triggered st) df))
  /\ (fired triggered = None \/ fired triggered = Some GlobalReset ->
      filtered_df (handle_resets triggered st) df = df)
  /\ (fired triggered = Some NoReset ->
      filtered_df (handle_resets triggered st) df = filtered_df st df).
Proof.
  rewrite handle_resets_fired. split; [|split].
  - intros r. rewrite !filtered_df_In. intros (Hin & Hp). split; auto.
    unfold passes in *. rewrite forallb_forall in *. intros d Hd.
    destruct (fired triggered) as [i|].
    + apply holds_apply_intent. auto.
    + destruct d; reflexivity.
  - assert (E : filtered_df cleared df = df).
    { rewrite filtered_df_filter. rewrite <- (filter_keep_all df) at 2.
      now apply filter_agree. }
    intros [-> | ->]; exact E.
  - intros ->. simpl. rewrite !filtered_df_filter.
    apply filter_agree. intros r _. unfold passes.
    cbn [forallb all_dimensions]. now rewrite !holds_current.
Qed.

(** ** Option lists and the filters they feed *)

Lemma with_value_twice d v w st :
  with_value d v (with_value d w st) = with_value d v st.
Proof. destruct d; reflexivity. Qed.

Lemma passes_with_value st d v r :
  passes st r = true ->
  holds (with_value d v st) r d = true ->
  passes (with_value d v st) r = true.
Proof.
  intros Hp Hh.
  rewrite (passes_split (with_value d v st) d), with_value_twice, Hh.
  rewrite (passes_split st d) in Hp. apply andb_true_iff in Hp as [Hp _].
  now rewrite Hp.
Qed.

(** Choosing for dimension [d] a value that row [r] carries keeps [r]. *)
Lemma chosen_value_keeps st d v r df :
  In r (filtered_df st df) ->
  matches (with_value d (Some v) st) d r = true ->
  In r (filtered_df (with_value d (Some v) st) df).
Proof.
  rewrite !filtered_df_In. intros (Hin & Hp) Hm. split; auto.
  apply passes_with_value; auto.
  unfold holds. rewrite Hm. apply orb_true_r.
Qed.

Lemma buyer_options_In narrowed v :
  In v (map value (buyer_options narrowed)) <->
  v <> "Unknown" /\ exists r, In r narrowed /\ Buyer r = v.
Proof.
  rewrite buyer_options_values, sorted_In, filter_In.
  rewrite (unique_In String.eqb String.eqb_eq), in_map_iff.
  rewrite negb_true_iff, String.eqb_neq. split.
  - intros ((r & <- & Hr) & Hn). eauto.
  - intros (Hn & r & Hr & <-). eauto.
Qed.

Lemma hs_options_In narrowed v :
  In v (map value (hs_options narrowed)) <->
  In v target_hs_codes /\ exists r, In r narrowed /\ py_str (HS_Code r) = v.
Proof.
  unfold hs_options. rewrite value_choices.
  rewrite sorted_In, filter_In, isin_In.
  rewrite (unique_In String.eqb String.eqb_eq), in_map_iff. split.
  - intros (Ht & r & <- & Hr). eauto.
  - intros (Ht & r & Hr & <-). eauto.
Qed.

Lemma column_options_In col narrowed v :
  In v (map value (column_options col narrowed)) <->
  exists r, In r narrowed /\ col r <> NaN /\ py_str (col r) = v.
Proof. apply (column_options_offers col narrowed). Qed.

Lemma update_dropdown_options_eq df st :
  update_dropdown_options df st =
  let narrowed := filtered_df st df in
  Dropdowns (buyer_options narrowed) (column_options Seller narrowed)
            (hs_options narrowed) (column_options Country_of_Origin narrowed)
            (column_options Category narrowed).
Proof.
  unfold update_dropdown_options. destruct df; [|reflexivity].
  rewrite filtered_df_filter. reflexivity.
Qed.

Lemma choices_of_In d narrowed v :
  In v (map value
          (choices_of d
             (Dropdowns (buyer_options narrowed)
                        (column_options Seller narrowed)
                        (hs_options narrowed)
                        (column_options Country_of_Origin narrowed)
                        (column_options Category narrowed)))) ->
  exists r, In r narrowed
            /\ forall st, matches (with_value d (Some v) st) d r = true.
Proof.
  destruct d; simpl; try contradiction.
  - rewrite buyer_options_In. intros (_ & r & Hr & <-). exists r.
    split; auto. intros st. apply String.eqb_refl.
  - rewrite column_options_In. intros (r & Hr & _ & <-). exists r.
    split; auto. intros st. apply String.eqb_refl.
  - rewrite hs_options_In. intros (_ & r & Hr & <-). exists r.
    split; auto. intros st. apply String.eqb_refl.
  - rewrite column_options_In. intros (r & Hr & _ & <-). exists r.
    split; auto. intros st. apply String.eqb_refl.
  - rewrite column_options_In. intros (r & Hr & _ & <-). exists r.
    split; auto. intros st. apply String.eqb_refl.
Qed.

(** X6. An offered choice never empties the view: when a dropdown offers
    a value, choosing it for that dimension (the other filters as they
    are) leaves at least one row, and that row carries the value. *)
Theorem offered_choice_has_rows (df : list row) (st : filters)
  (d : dimension) (v : string)
  (Hoffered : In v (map value (choices_of d (update_dropdown_options df st)))) :
  exists r,
    In r (filtered_df (with_value d (Some v) st) df)
    /\ matches (with_value d (Some v) st) d r = true.
Proof.
  rewrite update_dropdown_options_eq in Hoffered. cbv zeta in Hoffered.
  apply choices_of_In in Hoffered. destruct Hoffered as (r & Hr & Hm).
  exists r. split; [|apply Hm]. apply chosen_value_keeps; auto.
Qed.

Lemma offered_choice_has_rows_witness :
  In "Spain" (map value (choices_of CountryDim
                           (update_dropdown_options frame unset)))
  /\ exists r,
       In r (filtered_df (with_value CountryDim (Some "Spain") unset) frame)
       /\ matches (with_value CountryDim (Some "Spain") unset) CountryDim r
          = true.
Proof.
  assert (H : In "Spain" (map value (choices_of CountryDim
                                       (update_dropdown_options frame unset))))
    by (vm_compute; tauto).
  split; [exact H|].
  exact (offered_choice_has_rows frame unset CountryDim "Spain" H).
Defined.

Lemma filtered_df_narrower st d v df r :
  In r (filtered_df (with_value d v st) df) ->
  In r (filtered_df (with_value d None st) df).
Proof.
  rewrite (filtered_df_split (with_value d v st) d), with_value_twice.
  rewrite filter_In. tauto.
Qed.

(** X7. Progressive narrowing: setting or changing the value of one
    dimension can only remove rows, and so can only remove choices from
    every dropdown, compared with leaving that dimension unset. *)
Theorem options_only_narrow (df : list row) (st : filters)
  (d : dimension) (v : option string) :
  (forall r, In r (filtered_df (with_value d v st) df) ->
             In r (filtered_df (with_value d None st) df))
  /\ (forall d' x,
        In x (map value (choices_of d'
                (update_dropdown_options df (with_value d v st)))) ->
        In x (map value (choices_of d'
                (update_dropdown_options df (with_value d None st))))).
Proof.
  split; [intros r; apply filtered_df_narrower|].
  intros d' x. rewrite !update_dropdown_options_eq. cbv zeta.
  destruct d'; simpl; try contradiction;
    rewrite ?buyer_options_In, ?hs_options_In, ?column_options_In.
  - intros (Hn & r & Hr & E). split; auto. exists r.
    split; [eapply filtered_df_narrower; eauto | exact E].
  - intros (r & Hr & E). exists r.
    split; [eapply filtered_df_narrower; eauto | exact E].
  - intros (Hn & r & Hr & E). split; auto. exists r.
    split; [eapply filtered_df_narrower; eauto | exact E].
  - intros (r & Hr & E). exists r.
    split; [eapply filtered_df_narrower; eauto | exact E].
  - intros (r & Hr & E). exists r.
    split; [eapply filtered_df_narrower; eauto | exact E].
Qed.

(** ** The resolved buyer *)

Lemma determine_buyer_cases row :
  let intl := field_text (international_competitor row) in
  let dom := field_text (domestic_competitor row) in
  (determine_buyer row = intl /\ intl <> "")
  \/ (determine_buyer row = dom /\ dom <> "")
  \/ (determine_buyer row = "Unknown" /\ intl = "" /\ dom = "").
Proof.
  intros intl dom. unfold determine_buyer. fold intl dom.
  destruct (truthy intl) eqn:Ei, (truthy dom) eqn:Ed; simpl;
    rewrite ?truthy_true_iff, ?truthy_false_iff in *.
  - destruct (negb _); [auto|]. destruct (negb _); auto.
  - destruct (negb _); auto.
  - destruct (negb _); auto.
  - auto.
Qed.

Lemma classic_distinct x shipper :
  (x <> "" /\ clean_name x <> clean_name shipper)
  \/ ~ (x <> "" /\ clean_name x <> clean_name shipper).
Proof.
  destruct (truthy x && negb (clean_name x =? clean_name shipper)) eqn:E.
  - left. now apply distinct_true_iff.
  - right. rewrite distinct_true_iff. congruence.
Qed.

(** X8. The resolved buyer is never empty: it is the trimmed text of one
    of the two competitor fields, or ["Unknown"] when both are blank.
    Whenever a competitor field is non-empty and normalises differently
    from the shipper, so does the buyer: the shipper is then never taken
    for its own buyer. *)
Theorem buyer_never_empty_nor_shipper (row : declarants) :
  let shipper := field_text (shipper_declared row) in
  let intl := field_text (international_competitor row) in
  let dom := field_text (domestic_competitor row) in
  determine_buyer row <> ""
  /\ (determine_buyer row = intl \/ determine_buyer row = dom
      \/ (determine_buyer row = "Unknown" /\ intl = "" /\ dom = ""))
  /\ ((intl <> "" /\ clean_name intl <> clean_name shipper)
      \/ (dom <> "" /\ clean_name dom <> clean_name shipper) ->
      clean_name (determine_buyer row) <> clean_name shipper).
Proof.
  intros shipper intl dom.
  pose proof (determine_buyer_cases row) as Hc. cbv zeta in Hc.
  fold intl dom in Hc. split; [|split].
  - destruct Hc as [(-> & H) | [(-> & H) | (-> & _)]]; auto. discriminate.
  - tauto.
  - intros Hd.
    destruct (classic_distinct intl shipper) as [Hi | Hi].
    + rewrite (determine_buyer_step1 row Hi). apply Hi.
    + destruct Hd as [Hd | Hd]; [contradiction|].
      rewrite (determine_buyer_step2 row Hi Hd). apply Hd.
Qed.

(** ** The loaded frame *)

Lemma load_row_columns f g raw :
  let r := load_row f g raw in
  Seller r = Shipper_Declared r
  /\ Buyer r = determine_buyer
                 (Declarants (Shipper_Declared r) (International_Competitor r)
                             (Domestic_Competitor r)).
Proof. split; reflexivity. Qed.

Lemma determine_buyer_nonempty row : determine_buyer row <> "".
Proof.
  pose proof (determine_buyer_cases row) as Hc. cbv zeta in Hc.
  destruct Hc as [(-> & H) | [(-> & H) | (-> & _)]]; auto. discriminate.
Qed.

(** X9. In every row of the loaded frame the seller is the declared
    shipper as it stands, and the buyer is the buyer resolved from the
    row's own three declarant columns, hence never empty.  So every buyer
    the dropdown offers on a loaded frame is a set value, and choosing it
    shows rows of that buyer only. *)
Theorem loaded_rows_resolved
  (to_datetime : cell -> option date) (to_numeric : cell -> option Z)
  (sheet : option (list sheet_row)) (r : row)
  (Hin : In r (load_data to_datetime to_numeric sheet)) :
  Seller r = Shipper_Declared r
  /\ Buyer r = determine_buyer
                 (Declarants (Shipper_Declared r) (International_Competitor r)
                             (Domestic_Competitor r))
  /\ Buyer r <> ""
  /\ (forall st x,
        In x (filtered_df (with_value BuyerDim (Some (Buyer r)) st)
                (load_data to_datetime to_numeric sheet)) ->
        Buyer x = Buyer r).
Proof.
  assert (Hr : exists raw, r = load_row to_datetime to_numeric raw).
  { unfold load_data in Hin. destruct sheet as [rows|]; [|contradiction].
    apply filter_In in Hin. destruct Hin as (Hin & _).
    apply in_map_iff in Hin. destruct Hin as (raw & <- & _). eauto. }
  destruct Hr as (raw & ->).
  destruct (load_row_columns to_datetime to_numeric raw) as (Hs & Hb).
  split; [exact Hs|]. split; [exact Hb|].
  assert (Hne : Buyer (load_row to_datetime to_numeric raw) <> "")
    by (rewrite Hb; apply determine_buyer_nonempty).
  split; [exact Hne|].
  intros st x Hx. apply filtered_df_In in Hx. destruct Hx as (_ & Hp).
  rewrite passes_iff in Hp.
  assert (Hset : is_set (value_of BuyerDim
                   (with_value BuyerDim
                      (Some (Buyer (load_row to_datetime to_numeric raw))) st))
                 = true).
  { simpl. now apply truthy_true_iff. }
  specialize (Hp BuyerDim Hset). simpl in Hp. now apply String.eqb_eq in Hp.
Qed.

Lemma loaded_rows_resolved_witness :
  let id_date (c : cell) : option date := None in
  let id_num (c : cell) : option Z := None in
  let raw := SheetRow NaN (Str "Acme Ltd") (Str " Acme Limited")
                      (Str "Beta Inc ") (Int 854442) (Str "Italy")
                      (Str "Cable") NaN NaN NaN in
  let r := load_row id_date id_num raw in
  In r (load_data id_date id_num (Some [raw]))
  /\ Seller r = Str "Acme Ltd" /\ Buyer r = "Beta Inc".
Proof.
  intros id_date id_num raw r.
  assert (Hin : In r (load_data id_date id_num (Some [raw])))
    by (left; reflexivity).
  split; [exact Hin|].
  destruct (loaded_rows_resolved id_date id_num (Some [raw]) r Hin)
    as (Hs & Hb & _).
  split; [exact Hs | exact Hb].
Defined.

Lemma filter_map_load f g (p : cell -> bool) rows :
  filter (fun r => p (HS_Code r)) (map (load_row f g) rows)
  = map (load_row f g) (filter (fun raw => p (raw_HS_Code raw)) rows).
Proof.
  induction rows as [|raw rows IH]; [reflexivity|]. cbn [map filter].
  change (HS_Code (load_row f g raw)) with (raw_HS_Code raw).
  destruct (p (raw_HS_Code raw)); cbn [map]; now rewrite IH.
Qed.

(** X10. The loader keeps the order of the sheet and only drops rows: the
    frame is a selection of the sheet's rows in sheet order, each loaded
    on its own, every one of them with a code that prints as one of the
    four, and it is never longer than the sheet.  A sheet without any
    such row, or one that cannot be read, gives the empty frame, for
    which the dashboard answers "No data available" and every dropdown is
    empty. *)
Theorem load_data_selects
  (to_datetime : cell -> option date) (to_numeric : cell -> option Z)
  (rows : list sheet_row) (st : filters) :
  let load := load_data to_datetime to_numeric in
  (exists kept : sheet_row -> bool,
      load (Some rows)
      = map (load_row to_datetime to_numeric) (filter kept rows)
      /\ forall raw, kept raw = true ->
                     In (py_str (raw_HS_Code raw)) target_hs_codes)
  /\ (List.length (load (Some rows)) <= List.length rows)%nat
  /\ ((forall raw, In raw rows ->
         ~ In (py_str (raw_HS_Code raw)) target_hs_codes) ->
      load (Some rows) = []
      /\ update_dashboard (load (Some rows)) st = None
      /\ update_dropdown_options (load (Some rows)) st
         = Dropdowns [] [] [] [] [])
  /\ (load None = []
      /\ update_dashboard (load None) st = None
      /\ update_dropdown_options (load None) st = Dropdowns [] [] [] [] []).
Proof.
  intros load. unfold load, load_data.
  rewrite (filter_map_load to_datetime to_numeric
             (fun c => isin (py_str c) target_hs_codes) rows).
  split; [|split; [|split]].
  - exists (fun raw => isin (py_str (raw_HS_Code raw)) target_hs_codes).
    split; [reflexivity|]. intros raw H. now apply isin_In.
  - rewrite length_map. apply filter_length_le.
  - intros Hnone.
    assert (E : filter (fun raw => isin (py_str (raw_HS_Code raw))
                                        target_hs_codes) rows = []).
    { induction rows as [|raw rows' IH]; [reflexivity|]. cbn [filter].
      destruct (isin (py_str (raw_HS_Code raw)) target_hs_codes) eqn:E.
      - apply isin_In in E. elim (Hnone raw (or_introl eq_refl) E).
      - apply IH. intros x Hx. apply Hnone. now right. }
    rewrite E. repeat split.
  - repeat split.
Qed.

(** ** The normal form of a name *)

Lemma upper_char_idem c : upper_char (upper_char c) = upper_char c.
Proof. destruct c as [[] [] [] [] [] [] [] []]; reflexivity. Qed.

Lemma upper_idem s : upper (upper s) = upper s.
Proof. induction s; simpl; [|rewrite upper_char_idem]; congruence. Qed.

Lemma upper_cons_fixed c s :
  upper (String c s) = String c s -> upper_char c = c /\ upper s = s.
Proof. simpl. intros [= H1 H2]. auto. Qed.

Lemma sub_scan_upper r s : forall k p,
  upper s = s -> upper (sub_scan r k p s) = sub_scan r k p s.
Proof.
  induction s as [|c s IH]; intros k p H; [reflexivity|].
  apply upper_cons_fixed in H. destruct H as (Hc & Hs).
  destruct k as [|k]; [|simpl; auto].
  rewrite sub_scan_step.
  destruct (match_here r p (String c s)) as [cur|];
    [destruct (String.length (matched cur))|]; simpl; rewrite ?Hc, ?IH; auto.
Qed.

Lemma lstrip_upper s : upper s = s -> upper (lstrip s) = lstrip s.
Proof.
  induction s as [|c s IH]; intros H; [reflexivity|]. simpl lstrip.
  destruct (is_space c); [|exact H].
  apply upper_cons_fixed in H. apply IH, H.
Qed.

Lemma rstrip_upper s : upper s = s -> upper (rstrip s) = rstrip s.
Proof.
  induction s as [|c s IH]; intros H; [reflexivity|].
  apply upper_cons_fixed in H. destruct H as (Hc & Hs).
  specialize (IH Hs). simpl rstrip.
  destruct (rstrip s) as [|d r].
  - destruct (is_space c); simpl; [reflexivity | now rewrite Hc].
  - simpl in *. now rewrite Hc, IH.
Qed.

Lemma clean_name_upper name : upper (clean_name name) = clean_name name.
Proof.
  unfold clean_name, strip, sub_empty.
  apply rstrip_upper, lstrip_upper, sub_scan_upper, upper_idem.
Qed.

(** X11. The normal form is canonical in case and outer whitespace: a
    name and its upper-cased spelling normalise alike, and the normal form
    itself is upper-case and has no whitespace at either end. *)
Theorem clean_name_canonical (name : string) :
  clean_name (upper name) = clean_name name
  /\ upper (clean_name name) = clean_name name
  /\ strip (clean_name name) = clean_name name.
Proof.
  split; [|split].
  - unfold clean_name. now rewrite upper_idem.
  - apply clean_name_upper.
  - unfold clean_name. apply strip_idem.
Qed.

Lemma flatten_pieces s : flatten (pieces s) = s.
Proof.
  induction s as [|c s IH]; [reflexivity|]. simpl.
  destruct (is_word c).
  - destruct (pieces s) as [|[w|m] ps]; simpl in *; now rewrite <- IH.
  - simpl. now rewrite IH.
Qed.

Lemma canon_true_ahead ps : canon true ps -> word_ahead (flatten ps) = false.
Proof.
  destruct ps as [|[w|c] ps']; simpl; auto.
  - intros (H & _). discriminate.
  - tauto.
Qed.

Lemma canon_weaken ps : canon true ps -> canon false ps.
Proof.
  destruct ps as [|[w|c] ps']; simpl; auto. intros (H & _). discriminate.
Qed.

Lemma canon_pieces s : canon false (pieces s).
Proof.
  induction s as [|c s IH]; simpl; auto.
  destruct (is_word c) eqn:Hc.
  - destruct (pieces s) as [|[w|m] ps]; simpl in *.
    + repeat split; auto; [discriminate | now rewrite Hc].
    + destruct IH as (_ & Hw & Ha & Hps).
      repeat split; auto; [discriminate | now rewrite Hc, Ha].
    + repeat split; try tauto; [discriminate | now rewrite Hc].
  - simpl. auto.
Qed.

Lemma pieces_flatten ps : forall aw, canon aw ps -> pieces (flatten ps) = ps.
Proof.
  induction ps as [|[w|c] ps IH]; intros aw H; simpl in *.
  - reflexivity.
  - destruct H as (_ & Hw & Ha & Hps).
    destruct w as [|c w]; [now elim Hw|].
    rewrite (pieces_word w c (flatten ps) Ha (canon_true_ahead ps Hps)).
    f_equal. eapply IH; eauto.
  - destruct H as (Hc & Hps). rewrite Hc. f_equal. eapply IH; eauto.
Qed.

Lemma without_kept ps : forall b,
  without_suffix_words b ps = flatten (kept b ps).
Proof.
  induction ps as [|[w|c] ps IH]; intros b;
    cbn [without_suffix_words kept]; auto.
  - destruct (existsb (String.eqb w) suffix_words); cbn [flatten];
      now rewrite IH.
  - destruct (b && (c =? ".")%char); cbn [flatten]; now rewrite IH.
Qed.

Lemma canon_kept ps : forall aw b k,
  (k = true -> aw = true /\ b = false) ->
  canon aw ps -> canon k (kept b ps).
Proof.
  induction ps as [|[w|c] ps IH]; intros aw b k Hk H;
    cbn [canon kept] in *; auto.
  - destruct H as (Haw & Hw & Ha & Hps).
    assert (k = false) as ->.
    { destruct k; auto. destruct (Hk eq_refl). congruence. }
    destruct (existsb (String.eqb w) suffix_words).
    + apply (IH true true false); [discriminate | exact Hps].
    + cbn [canon]. repeat split; auto.
      apply (IH true false true); auto.
  - destruct H as (Hc & Hps).
    destruct (b && (c =? ".")%char) eqn:E.
    + apply andb_true_iff in E as [-> _].
      assert (k = false) as ->.
      { destruct k; auto. destruct (Hk eq_refl). congruence. }
      apply (IH false false false); [discriminate | exact Hps].
    + cbn [canon]. split; auto.
      apply (IH false false false); [discriminate | exact Hps].
Qed.

Lemma kept_no_suffix ps : forall b,
  Forall (fun p => is_suffix_word p = false) (kept b ps).
Proof.
  induction ps as [|[w|c] ps IH]; intros b; cbn [kept]; auto.
  - destruct (existsb (String.eqb w) suffix_words) eqn:E; auto.
  - destruct (b && (c =? ".")%char); auto.
Qed.

Lemma no_suffix_flatten ps :
  Forall (fun p => is_suffix_word p = false) ps ->
  without_suffix_words false ps = flatten ps.
Proof.
  induction 1 as [|[w|c] ps Hp _ IH];
    cbn [without_suffix_words flatten is_suffix_word andb] in *; auto.
  - now rewrite Hp, IH.
  - now rewrite IH.
Qed.

Lemma space_not_word c : is_space c = true -> is_word c = false.
Proof.
  destruct c as [[] [] [] [] [] [] [] []]; intros H;
    first [discriminate H | reflexivity].
Qed.

Lemma pieces_app a : forall b,
  word_ahead b = false -> (pieces (a ++ b) = pieces a ++ pieces b)%list.
Proof.
  induction a as [|c a IH]; intros b Hb; [reflexivity|].
  change (String c a ++ b) with (String c (a ++ b)).
  cbn [pieces]. rewrite (IH b Hb).
  destruct (is_word c); [|reflexivity].
  destruct (pieces a) as [|[w|m] ps]; try reflexivity.
  pose proof (pieces_nonword b Hb) as Hn.
  destruct (pieces b) as [|[w|m] ps]; [reflexivity | contradiction | reflexivity].
Qed.

Lemma rstrip_split s :
  exists ws, s = rstrip s ++ ws /\ word_ahead ws = false.
Proof.
  induction s as [|c s (ws & E & Hw)].
  - exists "". auto.
  - simpl rstrip. destruct (rstrip s) as [|d r] eqn:Er.
    + simpl in E. subst ws. destruct (is_space c) eqn:Hc.
      * exists (String c s). split; [reflexivity|].
        simpl. now apply space_not_word.
      * exists s. auto.
    + exists ws. split; [|exact Hw]. simpl. now rewrite E at 1.
Qed.

Lemma lstrip_pieces (P : piece -> Prop) s :
  Forall P (pieces s) -> Forall P (pieces (lstrip s)).
Proof.
  induction s as [|c s IH]; intros H; [exact H|]. simpl lstrip.
  destruct (is_space c) eqn:Hc; [|exact H].
  apply IH. cbn [pieces] in H. rewrite (space_not_word c Hc) in H.
  now inversion H.
Qed.

Lemma rstrip_pieces (P : piece -> Prop) s :
  Forall P (pieces s) -> Forall P (pieces (rstrip s)).
Proof.
  destruct (rstrip_split s) as (ws & E & Hw). intros H.
  rewrite E, (pieces_app _ _ Hw), Forall_app in H. tauto.
Qed.

(** X12. Normalising is idempotent: the normal form of a name is its own
    normal form, so comparing normal forms compares fully normalised
    names. *)
Theorem clean_name_idempotent (name : string) :
  clean_name (clean_name name) = clean_name name.
Proof.
  set (res := clean_name name).
  assert (Hres : Forall (fun p => is_suffix_word p = false) (pieces res)).
  { unfold res, clean_name, strip, sub_empty.
    apply rstrip_pieces, lstrip_pieces.
    rewrite (sub_scan_pieces (String.length (upper name))) by auto.
    rewrite without_kept.
    rewrite (pieces_flatten _ false).
    - apply kept_no_suffix.
    - apply (canon_kept _ false false false); [discriminate|].
      apply canon_pieces. }
  unfold clean_name at 1. fold res.
  unfold res at 1. rewrite clean_name_upper. fold res.
  unfold sub_empty.
  rewrite (sub_scan_pieces (String.length res)) by auto.
  rewrite (no_suffix_flatten _ Hres), flatten_pieces.
  unfold res, clean_name. apply strip_idem.
Qed.

Lemma upper_app a b : upper (a ++ b) = upper a ++ upper b.
Proof. induction a; simpl; congruence. Qed.

Lemma upper_char_word_inv c : is_word (upper_char c) = true -> is_word c = true.
Proof.
  destruct c as [[] [] [] [] [] [] [] []]; intros H;
    first [discriminate H | reflexivity].
Qed.

Lemma upper_all_word_inv w : all_word (upper w) = true -> all_word w = true.
Proof.
  induction w as [|c w IH]; simpl; auto.
  rewrite !andb_true_iff. intros [Hc Hw]. auto using upper_char_word_inv.
Qed.

Lemma rstrip_app_space s c :
  is_space c = true -> rstrip (s ++ String c "") = rstrip s.
Proof.
  intros Hc. induction s as [|d s IH]; simpl.
  - now rewrite Hc.
  - now rewrite IH.
Qed.

Lemma word_last w :
  all_word w = true -> w <> "" ->
  exists w' c, w = w' ++ String c "" /\ is_word c = true.
Proof.
  induction w as [|c w IH]; intros Hw Hne; [now elim Hne|].
  simpl in Hw. apply andb_true_iff in Hw as [Hc Hw].
  destruct w as [|d w].
  - exists "", c. auto.
  - destruct (IH Hw) as (w' & e & E & He); [discriminate|].
    exists (String c w'), e. simpl. now rewrite <- E.
Qed.

(** A text between two word characters is its own trimmed text. *)
Lemma strip_between_words w mid t :
  all_word w = true -> w <> "" -> all_word t = true -> t <> "" ->
  strip (w ++ mid ++ t) = w ++ mid ++ t.
Proof.
  intros Hw Hnw Ht Hnt.
  destruct (word_last t Ht Hnt) as (t' & c & -> & Hc).
  destruct w as [|d w]; [now elim Hnw|].
  simpl in Hw. apply andb_true_iff in Hw as [Hd _].
  unfold strip. simpl lstrip. rewrite (word_not_space d Hd).
  change (String d w ++ mid ++ t' ++ String c "")
    with (String d (w ++ mid ++ t' ++ String c "")).
  rewrite <- !append_assoc.
  change (String d (((w ++ mid) ++ t') ++ String c ""))
    with (String d ((w ++ mid) ++ t') ++ String c "").
  apply rstrip_keep, word_not_space, Hc.
Qed.

Lemma pieces_one_word w :
  all_word w = true -> w <> "" -> pieces w = [Word w].
Proof.
  intros Hw Hne. destruct w as [|c w]; [now elim Hne|].
  rewrite <- (append_empty_r (String c w)) at 1.
  now rewrite (pieces_word w c "" Hw eq_refl).
Qed.

(** The normal form of a one-word name with a suffix word behind it. *)
Lemma clean_name_word_suffix w t dot :
  all_word w = true -> w <> "" ->
  existsb (String.eqb (upper w)) suffix_words = false ->
  In (upper t) suffix_words ->
  dot = "" \/ dot = "." ->
  clean_name (w ++ " " ++ t ++ dot) = upper w.
Proof.
  intros Hw Hne Hn Ht Hdot. rewrite clean_name_normalize. unfold normalize.
  assert (HW : all_word (upper w) = true) by now apply upper_all_word.
  assert (HWne : upper w <> "") by (destruct w; [now elim Hne | discriminate]).
  assert (HT : all_word (upper t) = true) by now apply suffix_words_all_word.
  assert (HTne : upper t <> "").
  { intros E. rewrite E in Ht. simpl in Ht. intuition discriminate. }
  assert (Hsuf : existsb (String.eqb (upper t)) suffix_words = true)
    by now apply isin_In.
  rewrite !upper_app.
  destruct (upper w) as [|c W] eqn:EW; [now elim HWne|].
  destruct (upper t) as [|e T] eqn:ET; [now elim HTne|].
  rewrite (pieces_word W c _ HW) by reflexivity.
  change (upper " " ++ String e T ++ upper dot)
    with (String " " (String e T ++ upper dot)).
  cbn [pieces]. change (is_word " ") with false. cbv iota.
  assert (Hd : word_ahead (upper dot) = false)
    by (destruct Hdot as [-> | ->]; reflexivity).
  rewrite (pieces_word T e _ HT Hd).
  cbn [without_suffix_words andb]. rewrite Hn, Hsuf.
  assert (E : without_suffix_words true (pieces (upper dot)) = "")
    by (destruct Hdot as [-> | ->]; reflexivity).
  rewrite E. unfold strip. simpl lstrip.
  simpl in HW. apply andb_true_iff in HW as [Hc HW'].
  rewrite (word_not_space c Hc).
  change (rstrip (String c W ++ String " " "") = String c W).
  rewrite rstrip_app_space by reflexivity.
  apply rstrip_all_word. simpl. now rewrite Hc, HW'.
Qed.

Lemma determine_buyer_step3 row :
  let shipper := field_text (shipper_declared row) in
  let intl := field_text (international_competitor row) in
  let dom := field_text (domestic_competitor row) in
  ~ (intl <> "" /\ clean_name intl <> clean_name shipper) ->
  ~ (dom <> "" /\ clean_name dom <> clean_name shipper) ->
  intl <> "" ->
  determine_buyer row = intl.
Proof.
  intros shipper intl dom H1 H2 H3. rewrite distinct_true_iff in H1, H2.
  apply not_true_is_false in H1, H2. apply truthy_true_iff in H3.
  unfold determine_buyer. fold shipper intl dom. now rewrite H1, H2, H3.
Qed.

(** X13. A legal suffix does not make another company: a one-word name
    followed by a suffix word (in any case, with or without a period)
    normalises to the upper-cased name alone.  So when the international
    competitor is the shipper's name under another suffix word, it is not
    taken for a different party: the buyer is the domestic competitor if
    that one is non-empty and normalises differently, and the
    international competitor's own text only otherwise. *)
Theorem same_entity_not_buyer (w t1 t2 : string) (dom : cell)
  (Hw : all_word w = true) (Hne : w <> "")
  (Hn : existsb (String.eqb (upper w)) suffix_words = false)
  (H1 : In (upper t1) suffix_words) (H2 : In (upper t2) suffix_words) :
  let shipper := w ++ " " ++ t1 in
  let intl := w ++ " " ++ t2 in
  let row := Declarants (Str shipper) (Str intl) dom in
  clean_name shipper = upper w
  /\ clean_name (shipper ++ ".") = upper w
  /\ clean_name intl = clean_name shipper
  /\ (field_text dom <> "" /\ clean_name (field_text dom) <> upper w ->
      determine_buyer row = field_text dom)
  /\ (~ (field_text dom <> "" /\ clean_name (field_text dom) <> upper w) ->
      determine_buyer row = intl).
Proof.
  intros shipper intl row.
  assert (Hc : forall t, In (upper t) suffix_words ->
                 clean_name (w ++ " " ++ t) = upper w
                 /\ clean_name ((w ++ " " ++ t) ++ ".") = upper w
                 /\ field_text (Str (w ++ " " ++ t)) = w ++ " " ++ t
                 /\ w ++ " " ++ t <> "").
  { intros t Ht.
    assert (Hat : all_word t = true)
      by (apply upper_all_word_inv, suffix_words_all_word, Ht).
    assert (Hnt : t <> "").
    { intros ->. simpl in Ht. intuition discriminate. }
    split; [|split; [|split]].
    - rewrite <- (append_empty_r t).
      apply clean_name_word_suffix; auto.
    - rewrite !append_assoc. apply clean_name_word_suffix; auto.
    - unfold field_text. cbn [notna py_str].
      now apply (strip_between_words w " " t).
    - destruct w; [now elim Hne | discriminate]. }
  destruct (Hc t1 H1) as (Cs & Csd & Fs & Ns).
  destruct (Hc t2 H2) as (Ci & _ & Fi & Ni).
  fold shipper in Cs, Csd, Fs, Ns. fold intl in Ci, Fi, Ni.
  assert (Hsame : ~ (field_text (international_competitor row) <> ""
                     /\ clean_name (field_text (international_competitor row))
                        <> clean_name (field_text (shipper_declared row)))).
  { simpl. rewrite Fs, Fi, Cs, Ci. tauto. }
  split; [exact Cs|]. split; [exact Csd|]. split; [congruence|]. split.
  - intros Hd. apply (determine_buyer_step2 row Hsame).
    simpl. now rewrite Fs, Cs.
  - intros Hd. rewrite <- Fi. apply (determine_buyer_step3 row Hsame).
    + simpl. now rewrite Fs, Cs.
    + simpl. now rewrite Fi.
Qed.

Lemma same_entity_not_buyer_witness :
  determine_buyer
    (Declarants (Str ("Acme" ++ " " ++ "Ltd")) (Str ("Acme" ++ " " ++ "Limited"))
                (Str "Beta Inc"))
  = field_text (Str "Beta Inc")
  /\ clean_name ("Acme" ++ " " ++ "Ltd") = "ACME".
Proof.
  destruct (same_entity_not_buyer "Acme" "Ltd" "Limited" (Str "Beta Inc")
              eq_refl ltac:(discriminate) eq_refl
              ltac:(simpl; tauto) ltac:(simpl; tauto))
    as (Hc & _ & _ & Hd & _).
  split; [|exact Hc]. apply Hd. split; [discriminate|].
  vm_compute. discriminate.
Defined.

(** ** Date bounds, once more *)

(** X14. Whitespace around a date bound never matters, and a bound that
    is only whitespace is no bound; whatever is accepted is a day of the
    calendar, in the years 1 to 9999. *)
Theorem parse_date_simple_trims (s : string) :
  parse_date_simple (Some (strip s)) = parse_date_simple (Some s)
  /\ (strip s = "" -> parse_date_simple (Some s) = None)
  /\ (forall v b, parse_date_simple v = Some b ->
        valid_date (year b) (month b) (day b) = true
        /\ (1 <= year b <= 9999 /\ 1 <= month b <= 12 /\ 1 <= day b <= 31)%Z).
Proof.
  assert (Hblank : strip s = "" -> parse_date_simple (Some s) = None).
  { intros E. simpl. rewrite E. destruct (truthy s); reflexivity. }
  split; [|split; [exact Hblank|]].
  - destruct (strip s) as [|c r] eqn:E.
    + now rewrite Hblank.
    + simpl. rewrite <- E, strip_idem.
      destruct s as [|d s']; [discriminate E | reflexivity].
  - intros v b H. apply parse_date_simple_spec in H.
    destruct H as (_ & ms & ds & ys & _ & _ & _ & _ & _ & -> & V).
    simpl. split; [exact V|].
    destruct (valid_date_bounds _ _ _ V) as (Hm & Hd).
    unfold valid_date in V.
    rewrite !andb_true_iff, !Z.leb_le in V, Hm, Hd. lia.
Qed.

(** ** Metric cards *)

Lemma values_present_length val df :
  List.length (values_present val df)
  = List.length (filter (fun r => match val r with
                                  | Some _ => true
                                  | None => false
                                  end) df).
Proof.
  induction df as [|r df IH]; [reflexivity|].
  unfold values_present in *. simpl. rewrite length_app, IH.
  destruct (val r); reflexivity.
Qed.

Lemma values_present_nil val df :
  values_present val df = [] <-> forall r, In r df -> val r = None.
Proof.
  induction df as [|r df IH]; simpl.
  - split; [contradiction | reflexivity].
  - unfold values_present in *. simpl. destruct (val r) eqn:E; simpl.
    + split; [discriminate|]. intros H.
      specialize (H r (or_introl eq_refl)). congruence.
    + rewrite IH. split.
      * intros H x [<- | Hx]; auto.
      * intros H x Hx. apply H. now right.
Qed.

(** X15. The average price is taken over the rows that have a price: it
    is "N/A" exactly when no row of the view has one (the empty view
    included), and otherwise its denominator is the number of rows with a
    price, at least one and at most the transaction count, so that a row
    without a price counts as a transaction but not as a price of zero. *)
Theorem average_price_card (filtered : list row) :
  let cards := summarize filtered in
  let priced := filter (fun r => match Val_KG r with
                                 | Some _ => true
                                 | None => false
                                 end) filtered in
  (card_avg_price_per_kg cards = None <->
   forall r, In r filtered -> Val_KG r = None)
  /\ (forall total n,
        card_avg_price_per_kg cards = Some (total, n) ->
        Pos.to_nat n = List.length priced
        /\ (1 <= Pos.to_nat n <= card_transactions cards)%nat).
Proof.
  intros cards priced. unfold cards, priced, summarize; simpl.
  pose proof (values_present_nil Val_KG filtered) as Hnil.
  pose proof (values_present_length Val_KG filtered) as Hlen.
  split.
  - unfold column_mean.
    destruct (values_present Val_KG filtered) as [|x xs] eqn:E.
    + split; [intros _; now apply Hnil | reflexivity].
    + split; [discriminate|]. intros H. apply Hnil in H. discriminate.
  - unfold column_mean. intros total n.
    destruct (values_present Val_KG filtered) as [|x xs] eqn:E; [discriminate|].
    intros [= _ <-].
    assert (Hn : Pos.to_nat (Pos.of_nat (List.length (x :: xs)))
                 = List.length (x :: xs))
      by (refine (Nat2Pos.id (S (List.length xs)) _); discriminate).
    assert (Hle : (List.length (x :: xs) <= List.length filtered)%nat)
      by (rewrite Hlen; apply filter_length_le).
    change (List.length (x :: xs)) with (S (List.length xs)) in *.
    change (Pos.of_nat (S (List.length xs)))
      with (match List.length xs with
            | 0%nat => 1%positive
            | S _ => Pos.succ (Pos.of_nat (List.length xs))
            end) in Hn.
    lia.
Qed.

(** X16. An empty view is an answer, not an error: on a frame that has
    rows, a filter state that no row passes gives zero transactions, zero
    totals, the average "N/A", empty charts and an empty table; only the
    empty frame itself gives "No data available". *)
Theorem empty_view (df : list row) (st : filters) :
  (df <> [] -> filtered_df st df = [] ->
   update_dashboard df st
   = Some (DashboardView (Metrics 0 0 0 None) [] [] [] [] []))
  /\ (update_dashboard df st = None <-> df = [])
  /\ (forall view, update_dashboard df st = Some view ->
        table_data view = filtered_df st df
        /\ card_transactions (metrics_row view)
           = List.length (table_data view)).
Proof.
  split; [|split].
  - intros Hne Hnone. destruct df as [|r df]; [now elim Hne|].
    unfold update_dashboard. cbv zeta. rewrite Hnone. reflexivity.
  - destruct df; simpl; split; congruence.
  - intros view. destruct df as [|r df]; [discriminate|].
    unfold update_dashboard. intros [= <-]. simpl. auto.
Qed.

(** ** Buyers chart against the buyer dropdown *)

Lemma labels_total (col : row -> string) df :
  labels (fun r => Some (col r)) df = map col df.
Proof. induction df as [|r df IH]; simpl; congruence. Qed.

Lemma groupby_sum_labels key val df g :
  In g (map fst (groupby_sum key val df)) <-> In g (labels key df).
Proof.
  rewrite in_map_iff. split.
  - intros ([g' v] & <- & Hx). now apply groupby_sum_In in Hx.
  - intros Hg. exists (g, group_total key val g df). split; auto.
    apply groupby_sum_In. auto.
Qed.

Lemma groupby_sum_length key val df :
  List.length (groupby_sum key val df)
  = List.length (unique String.eqb (labels key df)).
Proof.
  rewrite <- (length_map fst).
  apply Permutation_length, NoDup_Permutation.
  - apply by_label_NoDup, groupby_sum_sorted.
  - apply unique_NoDup, String.eqb_eq.
  - intros g. rewrite (unique_In String.eqb String.eqb_eq).
    apply groupby_sum_labels.
Qed.

(** X17. The buyers chart and the buyer dropdown of one view agree: every
    bar is a buyer of a row of the view, and is offered by the dropdown
    unless it is "Unknown", which the chart shows and the dropdown leaves
    out.  The chart has at most ten bars; when the view has at most ten
    distinct buyers, every buyer of the view has a bar, so every buyer
    the dropdown offers is on the chart. *)
Theorem buyers_chart_vs_dropdown (df : list row) (st : filters) :
  let filtered := filtered_df st df in
  let bars := map fst (top_buyers filtered) in
  let offered := map value (buyer_choices (update_dropdown_options df st)) in
  (forall b, In b bars -> exists r, In r filtered /\ Buyer r = b)
  /\ (forall b, In b bars -> b = "Unknown" \/ In b offered)
  /\ ~ In "Unknown" offered
  /\ (List.length bars <= 10)%nat
  /\ ((List.length (unique String.eqb (map Buyer filtered)) <= 10)%nat ->
      (forall r, In r filtered -> In (Buyer r) bars)
      /\ (forall b, In b offered -> In b bars)).
Proof.
  intros filtered bars offered.
  set (G := groupby_sum (fun r => Some (Buyer r)) Metric_Tons filtered).
  assert (Hbars : forall b, In b bars -> In b (map Buyer filtered)).
  { intros b Hb. unfold bars, top_buyers, topNBy, nlargest in Hb.
    apply in_map_iff in Hb. destruct Hb as (x & <- & Hx).
    apply firstn_incl_In in Hx.
    apply (Permutation_in _ (sort_desc_perm _)) in Hx.
    rewrite <- (labels_total Buyer).
    apply (proj1 (groupby_sum_labels (fun r => Some (Buyer r)) Metric_Tons
                    filtered (fst x))).
    now apply in_map. }
  assert (Hoff : forall b, In b offered <->
                           b <> "Unknown"
                           /\ exists r, In r filtered /\ Buyer r = b).
  { intros b. unfold offered, update_dropdown_options.
    destruct df as [|r0 df'] eqn:E.
    - simpl. split; [contradiction|].
      intros (_ & r & Hr & _). unfold filtered in Hr.
      apply filtered_df_In in Hr. destruct Hr as [[] _].
    - cbn [buyer_choices]. apply buyer_options_In. }
  assert (Hrow : forall b, In b (map Buyer filtered) ->
                           exists r, In r filtered /\ Buyer r = b).
  { intros b Hb. apply in_map_iff in Hb. destruct Hb as (r & <- & Hr). eauto. }
  split; [|split; [|split; [|split]]].
  - intros b Hb. auto.
  - intros b Hb. destruct (string_dec b "Unknown") as [->|Hn]; [now left|].
    right. apply Hoff. auto.
  - intros H. apply Hoff in H. destruct H as (H & _). now apply H.
  - unfold bars, top_buyers, topNBy, nlargest. rewrite length_map.
    apply firstn_le_length.
  - intros Hlen.
    assert (Hall : forall r, In r filtered -> In (Buyer r) bars).
    { intros r Hr. unfold bars, top_buyers, topNBy, nlargest. fold G.
      rewrite firstn_all2.
      - apply (Permutation_in _ (Permutation_map fst
                                   (Permutation_sym (sort_desc_perm G)))).
        apply (proj2 (groupby_sum_labels (fun r => Some (Buyer r)) Metric_Tons
                        filtered (Buyer r))).
        rewrite labels_total. now apply in_map.
      - rewrite (Permutation_length (sort_desc_perm G)).
        unfold G. rewrite groupby_sum_length, labels_total. exact Hlen. }
    split; [exact Hall|].
    intros b Hb. apply Hoff in Hb. destruct Hb as (_ & r & Hr & <-). auto.
Qed.

(** ** Category and country counts *)

Lemma cell_eqb_refl c : cell_eqb c c = true.
Proof. now apply cell_eqb_eq. Qed.

Lemma cell_eqb_neq a b : a <> b -> cell_eqb a b = false.
Proof.
  intros H. destruct (cell_eqb a b) eqn:E; auto.
  apply cell_eqb_eq in E. contradiction.
Qed.

Lemma count_value_count_of c c' acc :
  count_of c (count_value c' acc)
  = (count_of c acc + if cell_eqb c' c then 1 else 0)%nat.
Proof.
  induction acc as [|[k n] acc IH]; simpl.
  - destruct (cell_eqb c' c); reflexivity.
  - destruct (cell_eqb c' k) eqn:E; simpl.
    + apply cell_eqb_eq in E. subst k.
      destruct (cell_eqb c' c); lia.
    + destruct (cell_eqb k c) eqn:Ek; [|exact IH].
      apply cell_eqb_eq in Ek. subst k. rewrite E. lia.
Qed.

Lemma count_value_keys c acc x :
  In x (map fst (count_value c acc)) -> x = c \/ In x (map fst acc).
Proof.
  induction acc as [|[k n] acc IH]; simpl.
  - intros [<- | []]. auto.
  - destruct (cell_eqb c k); simpl; [tauto|].
    intros [<- | H]; [tauto|]. destruct (IH H); auto.
Qed.

Lemma count_value_NoDup c acc :
  NoDup (map fst acc) -> NoDup (map fst (count_value c acc)).
Proof.
  induction acc as [|[k n] acc IH]; simpl; intros H.
  - repeat constructor. intros [].
  - destruct (cell_eqb c k) eqn:E; simpl; [exact H|].
    inversion H as [|? ? Hk Hacc]; subst. constructor; [|auto].
    intros Hin. destruct (count_value_keys _ _ _ Hin) as [-> | Hin']; auto.
    rewrite cell_eqb_refl in E. discriminate.
Qed.

Lemma count_value_positive c acc :
  Forall (fun x => (1 <= snd x)%nat) acc ->
  Forall (fun x => (1 <= snd x)%nat) (count_value c acc).
Proof.
  induction 1 as [|[k n] acc Hx Hacc IH]; simpl.
  - repeat constructor.
  - destruct (cell_eqb c k); constructor; simpl in *; auto; lia.
Qed.

Lemma count_value_counted c acc :
  counted (count_value c acc) = S (counted acc).
Proof.
  induction acc as [|[k n] acc IH]; simpl; auto.
  destruct (cell_eqb c k); simpl; lia.
Qed.

Lemma count_of_In c k s :
  NoDup (map fst s) -> In (c, k) s -> count_of c s = k.
Proof.
  induction s as [|[c' n] s IH]; simpl; intros Hn H; [contradiction|].
  destruct H as [H | H].
  - injection H as -> ->. now rewrite cell_eqb_refl.
  - inversion Hn as [|? ? Hc Hs]; subst.
    rewrite cell_eqb_neq; [auto|].
    intros ->. apply Hc. change c with (fst (c, k)). now apply in_map.
Qed.

Lemma count_of_positive c s :
  (1 <= count_of c s)%nat -> In (c, count_of c s) s.
Proof.
  induction s as [|[c' n] s IH]; simpl; [lia|].
  destruct (cell_eqb c' c) eqn:E; auto.
  apply cell_eqb_eq in E. subst. auto.
Qed.

Section Tally.
Variable col : row -> cell.

Lemma tally_invariant df : forall acc,
  NoDup (map fst acc) ->
  Forall (fun x => (1 <= snd x)%nat) acc ->
  Forall (fun x => fst x <> NaN) acc ->
  let s := fold_left
             (fun acc r => if notna (col r) then count_value (col r) acc
                           else acc) df acc in
  NoDup (map fst s)
  /\ Forall (fun x => (1 <= snd x)%nat) s
  /\ Forall (fun x => fst x <> NaN) s
  /\ (forall c, c <> NaN ->
        count_of c s = (count_of c acc + frequency col c df)%nat)
  /\ counted s
     = (counted acc + List.length (filter (fun r => notna (col r)) df))%nat.
Proof.
  induction df as [|r df IH]; intros acc Hn Hp Hk; cbv zeta.
  - simpl. repeat split; auto; intros; unfold frequency; simpl; lia.
  - simpl fold_left. destruct (notna (col r)) eqn:E.
    + destruct (IH (count_value (col r) acc)) as (I1 & I2 & I3 & I4 & I5).
      * now apply count_value_NoDup.
      * now apply count_value_positive.
      * apply Forall_forall. intros x Hx.
        assert (Hx' : In (fst x) (map fst (count_value (col r) acc)))
          by now apply in_map.
        destruct (count_value_keys _ _ _ Hx') as [-> | Hin].
        -- intros Hnan. rewrite Hnan in E. discriminate.
        -- apply in_map_iff in Hin. destruct Hin as (y & <- & Hy).
           rewrite Forall_forall in Hk. now apply Hk.
      * repeat split; auto.
        -- intros c Hc. rewrite (I4 c Hc), count_value_count_of.
           unfold frequency. simpl. destruct (cell_eqb (col r) c); simpl; lia.
        -- rewrite I5, count_value_counted. simpl. rewrite E. simpl. lia.
    + destruct (IH acc Hn Hp Hk) as (I1 & I2 & I3 & I4 & I5).
      repeat split; auto.
      * intros c Hc. rewrite (I4 c Hc). unfold frequency. simpl.
        rewrite cell_eqb_neq; [reflexivity|].
        intros <-. destruct (col r); simpl in E; congruence.
      * rewrite I5. simpl. now rewrite E.
Qed.

End Tally.

Lemma insert_count_perm x l : Permutation (insert_count x l) (x :: l).
Proof.
  induction l as [|y l IH]; simpl; auto.
  destruct (snd x <? snd y)%nat; auto.
  rewrite IH. apply perm_swap.
Qed.

Lemma sort_counts_perm l : Permutation (sort_counts l) l.
Proof.
  induction l as [|x l IH]; simpl; auto.
  rewrite insert_count_perm. auto.
Qed.

Lemma insert_count_sorted x l :
  StronglySorted (fun a b => (snd b <= snd a)%nat) l ->
  StronglySorted (fun a b => (snd b <= snd a)%nat) (insert_count x l).
Proof.
  induction 1 as [|y l Hs IH Hf]; simpl.
  - repeat constructor.
  - destruct (snd x <? snd y)%nat eqn:E.
    + apply Nat.ltb_lt in E. constructor; auto.
      eapply Permutation_Forall; [symmetry; apply insert_count_perm|].
      constructor; [lia | exact Hf].
    + apply Nat.ltb_ge in E. constructor; [constructor; auto|].
      constructor; [exact E|].
      eapply Forall_impl; [|exact Hf]. simpl. intros z Hz. lia.
Qed.

Lemma sort_counts_sorted l :
  StronglySorted (fun a b => (snd b <= snd a)%nat) (sort_counts l).
Proof.
  induction l as [|x l IH]; simpl; [constructor|].
  now apply insert_count_sorted.
Qed.

Lemma counted_perm l1 l2 : Permutation l1 l2 -> counted l1 = counted l2.
Proof. induction 1; simpl; lia. Qed.

Lemma tally_facts col df :
  NoDup (map fst (tally col df))
  /\ Forall (fun x => (1 <= snd x)%nat) (tally col df)
  /\ Forall (fun x => fst x <> NaN) (tally col df)
  /\ (forall c, c <> NaN -> count_of c (tally col df) = frequency col c df)
  /\ counted (tally col df)
     = List.length (filter (fun r => notna (col r)) df).
Proof.
  destruct (tally_invariant col df [] (NoDup_nil _) (Forall_nil _)
              (Forall_nil _)) as (H1 & H2 & H3 & H4 & H5).
  split; [exact H1|]. split; [exact H2|]. split; [exact H3|].
  split; [intros c Hc; exact (H4 c Hc) | exact H5].
Qed.

Lemma frequency_positive col c df :
  In c (map col df) -> (1 <= frequency col c df)%nat.
Proof.
  unfold frequency. induction df as [|r df IH]; intros H; simpl in *.
  - contradiction.
  - destruct H as [<- | H].
    + rewrite cell_eqb_refl. simpl. lia.
    + destruct (cell_eqb (col r) c); simpl; [lia | auto].
Qed.

(** X18. The category and country charts show true frequencies: each
    entry is a value that is not NaN with the number of rows that carry
    it, no value occurs twice, the entries come most frequent first, and
    a value left out is no more frequent than any entry shown; the counts
    of all values together are the rows whose cell is not NaN.  The
    category chart has at most 5 entries, the country chart at most 10. *)
Theorem value_counts_head (col : row -> cell) (n : nat) (df : list row) :
  let dist := firstn n (value_counts col df) in
  (forall c k, In (c, k) dist ->
               c <> NaN /\ k = frequency col c df /\ (1 <= k)%nat)
  /\ StronglySorted (fun x y => (snd y <= snd x)%nat) dist
  /\ NoDup (map fst dist)
  /\ (List.length dist <= n)%nat
  /\ (forall c, c <> NaN -> In c (map col df) -> ~ In c (map fst dist) ->
        forall x, In x dist -> (frequency col c df <= snd x)%nat)
  /\ counted (value_counts col df)
     = List.length (filter (fun r => notna (col r)) df)
  /\ category_dist df = firstn 5 (value_counts Category df)
  /\ country_dist df = firstn 10 (value_counts Country_of_Origin df).
Proof.
  intros dist.
  destruct (tally_facts col df) as (Hn & Hp & Hk & Hc & Ht).
  set (T := tally col df) in *.
  assert (HS : StronglySorted (fun x y => (snd y <= snd x)%nat) (sort_counts T))
    by apply sort_counts_sorted.
  assert (Hdist : dist = firstn n (sort_counts T)) by reflexivity.
  assert (Hin : forall x, In x dist -> In x T).
  { intros x Hx. rewrite Hdist in Hx. apply firstn_incl_In in Hx.
    eapply Permutation_in; [apply sort_counts_perm | exact Hx]. }
  rewrite <- (firstn_skipn n (sort_counts T)) in HS.
  apply StronglySorted_app_inv in HS. destruct HS as [HS1 HS2].
  rewrite <- Hdist in HS1, HS2.
  split; [|split; [|split; [|split; [|split; [|split]]]]].
  - intros c k Hx. apply Hin in Hx.
    assert (Hc' : c <> NaN).
    { rewrite Forall_forall in Hk. apply (Hk (c, k) Hx). }
    split; [exact Hc'|]. split.
    + rewrite <- (Hc c Hc'). symmetry. now apply count_of_In.
    + rewrite Forall_forall in Hp. apply (Hp (c, k) Hx).
  - exact HS1.
  - assert (N : NoDup (map fst (sort_counts T))).
    { eapply Permutation_NoDup; [|exact Hn].
      apply Permutation_map. symmetry. apply sort_counts_perm. }
    rewrite <- (firstn_skipn n (sort_counts T)), map_app in N.
    apply NoDup_app_remove_r in N. now rewrite Hdist.
  - rewrite Hdist. apply firstn_le_length.
  - intros c Hc' Hcol Hout x Hx.
    assert (Hall : In (c, frequency col c df) (sort_counts T)).
    { eapply Permutation_in; [symmetry; apply sort_counts_perm|].
      rewrite <- (Hc c Hc'). apply count_of_positive.
      rewrite (Hc c Hc'). now apply frequency_positive. }
    rewrite <- (firstn_skipn n (sort_counts T)), in_app_iff in Hall.
    destruct Hall as [Hk' | Hk'].
    + exfalso. apply Hout. rewrite Hdist.
      change c with (fst (c, frequency col c df)). now apply in_map.
    + apply (HS2 x (c, frequency col c df) Hx Hk').
  - unfold value_counts. fold T.
    now rewrite (counted_perm _ _ (sort_counts_perm T)).
  - split; reflexivity.
Qed.

(** ** Time series *)

Local Open Scope Z_scope.

Lemma date_eqb_eq a b : date_eqb a b = true <-> a = b.
Proof.
  destruct a as [y m d], b as [y' m' d']. unfold date_eqb. simpl.
  rewrite !andb_true_iff, !Z.eqb_eq. split.
  - intros ((-> & ->) & ->). reflexivity.
  - intros [= -> -> ->]. auto.
Qed.

Lemma date_eqb_refl a : date_eqb a a = true.
Proof. now apply date_eqb_eq. Qed.

Lemma date_eqb_sym a b : date_eqb a b = date_eqb b a.
Proof.
  destruct (date_eqb a b) eqn:E.
  - apply date_eqb_eq in E. subst. symmetry. apply date_eqb_refl.
  - destruct (date_eqb b a) eqn:E'; auto.
    apply date_eqb_eq in E'. subst. rewrite date_eqb_refl in E. discriminate.
Qed.

Lemma date_ltb_iff a b : date_ltb a b = true <-> lex_lt a b.
Proof.
  unfold date_ltb, lex_lt. rewrite andb_true_iff, negb_true_iff, date_leb_iff.
  destruct (date_eqb a b) eqn:E.
  - apply date_eqb_eq in E. subst. split; [intros [_ H]; discriminate | lia].
  - split; [|intros H; split; [lia | reflexivity]].
    intros [H _].
    destruct (Z.eq_dec (year a) (year b)) as [Ey|]; [|lia].
    destruct (Z.eq_dec (month a) (month b)) as [Em|]; [|lia].
    destruct (Z.eq_dec (day a) (day b)) as [Ed|]; [|lia].
    exfalso. destruct a, b; simpl in *; subst.
    rewrite date_eqb_refl in E. discriminate.
Qed.

Lemma date_ltb_trans a b c :
  date_ltb a b = true -> date_ltb b c = true -> date_ltb a c = true.
Proof. rewrite !date_ltb_iff. unfold lex_lt. lia. Qed.

Lemma date_ltb_neq a b : date_ltb a b = true -> date_eqb b a = false.
Proof.
  unfold date_ltb. rewrite andb_true_iff, negb_true_iff, date_eqb_sym. tauto.
Qed.

Lemma date_not_leb a b :
  date_eqb a b = false -> date_leb a b = false -> date_ltb b a = true.
Proof.
  intros E H. apply date_ltb_iff. unfold lex_lt.
  assert (Hn : ~ (year a < year b
                  \/ (year a = year b
                      /\ (month a < month b
                          \/ (month a = month b /\ day a <= day b))))).
  { rewrite <- date_leb_iff. congruence. }
  lia.
Qed.

Lemma sums_of_later g s :
  Forall (fun y => date_ltb g (fst y) = true) s -> sums_of g s = None.
Proof.
  induction 1 as [|[k vw] s H _ IH]; simpl; auto.
  simpl in H. now rewrite (date_ltb_neq _ _ H).
Qed.

Lemma add_to_day_keys d v w acc x :
  In x (add_to_day d v w acc) -> fst x = d \/ In (fst x) (map fst acc).
Proof.
  induction acc as [|[d' [v' w']] acc IH]; simpl.
  - intros [<- | []]. auto.
  - destruct (date_eqb d d'); [|destruct (date_leb d d')]; simpl.
    + intros [<- | H]; simpl; auto. right. right. now apply in_map.
    + intros [<- | [<- | H]]; simpl; auto. right. right. now apply in_map.
    + intros [<- | H]; simpl; auto. destruct (IH H); auto.
Qed.

Lemma add_to_day_sorted d v w acc :
  StronglySorted by_day acc -> StronglySorted by_day (add_to_day d v w acc).
Proof.
  induction 1 as [|[d' [v' w']] acc Hs IH Hf]; simpl.
  - repeat constructor.
  - destruct (date_eqb d d') eqn:E; [|destruct (date_leb d d') eqn:L].
    + constructor; auto.
    + assert (Hlt : date_ltb d d' = true)
        by (unfold date_ltb; now rewrite L, E).
      constructor; [constructor; auto|].
      constructor; [exact Hlt|].
      eapply Forall_impl; [|exact Hf]. intros y Hy.
      unfold by_day in *. simpl in *. eapply date_ltb_trans; eauto.
    + constructor; auto.
      apply Forall_forall. intros x Hx.
      destruct (add_to_day_keys _ _ _ _ _ Hx) as [Hk | Hk].
      * unfold by_day. simpl. rewrite Hk. now apply date_not_leb.
      * apply in_map_iff in Hk. destruct Hk as (y & Ey & Hy).
        rewrite Forall_forall in Hf. specialize (Hf y Hy).
        unfold by_day in *. now rewrite <- Ey.
Qed.

Lemma add_to_day_sums d v w acc g :
  StronglySorted by_day acc ->
  sums_of g (add_to_day d v w acc) =
  if date_eqb d g
  then Some (match sums_of g acc with
             | Some (v0, w0) => (v0 + v, w0 + w)
             | None => (v, w)
             end)
  else sums_of g acc.
Proof.
  induction 1 as [|[d' [v' w']] acc Hs IH Hf]; simpl.
  - destruct (date_eqb d g); reflexivity.
  - destruct (date_eqb d d') eqn:E; [|destruct (date_leb d d') eqn:L]; simpl.
    + apply date_eqb_eq in E. subst d'.
      destruct (date_eqb d g); reflexivity.
    + assert (Hlt : date_ltb d d' = true)
        by (unfold date_ltb; now rewrite L, E).
      destruct (date_eqb d g) eqn:Eg; [|reflexivity].
      apply date_eqb_eq in Eg. subst g.
      rewrite (date_ltb_neq _ _ Hlt).
      rewrite sums_of_later; [reflexivity|].
      eapply Forall_impl; [|exact Hf]. intros y Hy.
      unfold by_day in Hy. simpl in Hy. eapply date_ltb_trans; eauto.
    + destruct (date_eqb d' g) eqn:Eg.
      * apply date_eqb_eq in Eg. subst g. now rewrite E.
      * exact IH.
Qed.

Lemma sums_of_In g vw s :
  StronglySorted by_day s -> (In (g, vw) s <-> sums_of g s = Some vw).
Proof.
  induction 1 as [|[k xy] s Hs IH Hf]; simpl.
  - split; [tauto | discriminate].
  - destruct (date_eqb k g) eqn:E.
    + apply date_eqb_eq in E. subst k. split.
      * intros [[= ->] | H]; [reflexivity|].
        rewrite Forall_forall in Hf. specialize (Hf _ H).
        unfold by_day in Hf. simpl in Hf. apply date_ltb_neq in Hf.
        rewrite date_eqb_refl in Hf. discriminate.
      * intros [= ->]. auto.
    + rewrite <- IH. split; [|tauto].
      intros [[= -> ->] | H]; [|exact H].
      rewrite date_eqb_refl in E. discriminate.
Qed.

Lemma on_day_cons d r df :
  on_day d (r :: df) =
  if match Date r with Some x => date_eqb x d | None => false end
  then r :: on_day d df else on_day d df.
Proof. reflexivity. Qed.

Lemma daily_fold_sorted df : forall acc,
  StronglySorted by_day acc -> StronglySorted by_day (fold_left day_step df acc).
Proof.
  induction df as [|r df IH]; intros acc H; simpl; auto.
  apply IH. unfold day_step. destruct (Date r); auto using add_to_day_sorted.
Qed.

Lemma day_step_dated acc r d :
  Date r = Some d ->
  day_step acc r
  = add_to_day d (present (Total_calculated_value r))
               (present (Metric_Tons r)) acc.
Proof. unfold day_step. now intros ->. Qed.

Lemma day_step_undated acc r : Date r = None -> day_step acc r = acc.
Proof. unfold day_step. now intros ->. Qed.

Lemma day_step_sorted acc r :
  StronglySorted by_day acc -> StronglySorted by_day (day_step acc r).
Proof. unfold day_step. destruct (Date r); auto using add_to_day_sorted. Qed.

(** The sums of a day come from the rows of that day alone, taken in the
    order of the frame. *)
Lemma daily_fold_local g df : forall acc : list day_sums,
  StronglySorted by_day acc ->
  sums_of g (fold_left day_step df acc)
  = sums_of g (fold_left day_step (on_day g df)
                 match sums_of g acc with
                 | Some vw => [(g, vw)]
                 | None => []
                 end).
Proof.
  induction df as [|r df IH]; intros acc H.
  - simpl. destruct (sums_of g acc) as [vw|]; simpl;
      [rewrite date_eqb_refl|]; reflexivity.
  - rewrite on_day_cons.
    change (fold_left day_step (r :: df) acc)
      with (fold_left day_step df (day_step acc r)).
    rewrite (IH _ (day_step_sorted acc r H)).
    destruct (Date r) as [d|] eqn:Ed; cbv beta iota.
    + rewrite (day_step_dated acc r d Ed).
      rewrite (add_to_day_sums _ _ _ _ g H).
      destruct (date_eqb d g) eqn:E; [|reflexivity].
      apply date_eqb_eq in E. subst d.
      match goal with
      | |- _ = sums_of g (fold_left day_step (r :: ?l) ?a) =>
          change (fold_left day_step (r :: l) a)
            with (fold_left day_step l (day_step a r))
      end.
      rewrite (day_step_dated _ r g Ed).
      destruct (sums_of g acc) as [[v0 w0]|]; cbn [add_to_day];
        rewrite ?date_eqb_refl; reflexivity.
    + now rewrite (day_step_undated acc r Ed).
Qed.

(** The series of rows that all bear one date has one entry, or none when
    there is no row. *)
Lemma single_day g l :
  (forall r, In r l -> Date r = Some g) ->
  forall acc : list day_sums, (acc = [] \/ exists vw, acc = [(g, vw)]) ->
  (fold_left day_step l acc = [] /\ l = [])
  \/ exists vw, fold_left day_step l acc = [(g, vw)].
Proof.
  induction l as [|r l IH]; intros Hl acc Hacc.
  - simpl. destruct Hacc as [-> | (vw & ->)]; eauto.
  - simpl fold_left. right.
    rewrite (day_step_dated acc r g (Hl r (or_introl eq_refl))).
    destruct (IH (fun x Hx => Hl x (or_intror Hx))
                 (add_to_day g (present (Total_calculated_value r))
                             (present (Metric_Tons r)) acc))
      as [(_ & ->) | Hs].
    + right. destruct Hacc as [-> | ([v0 w0] & ->)]; simpl;
        rewrite ?date_eqb_refl; eauto.
    + simpl. destruct Hacc as [-> | ([v0 w0] & ->)]; simpl;
        rewrite ?date_eqb_refl; eauto.
    + exact Hs.
Qed.

Lemma on_day_dates d df r : In r (on_day d df) -> Date r = Some d.
Proof.
  unfold on_day. rewrite filter_In. intros (_ & H).
  destruct (Date r) as [x|]; [|discriminate].
  apply date_eqb_eq in H. now subst.
Qed.

Lemma on_day_In d df r : In r df -> Date r = Some d -> In r (on_day d df).
Proof.
  intros Hr Hd. unfold on_day. rewrite filter_In, Hd.
  split; [exact Hr | apply date_eqb_refl].
Qed.

Lemma daily_fold_dated df : forall acc : list day_sums,
  fold_left day_step df acc = fold_left day_step (dated df) acc.
Proof.
  induction df as [|r df IH]; intros acc; [reflexivity|].
  unfold dated. simpl. fold (dated df).
  destruct (Date r) as [d|] eqn:Ed; simpl.
  - apply IH.
  - rewrite (day_step_undated acc r Ed). apply IH.
Qed.

(** X19. The time series is chronological and made day by day: its days
    are in strictly ascending order (one entry per day), a day is present
    exactly when some row of the view is dated that day, the entry of a
    day is the entry that the rows of that day give on their own, and
    rows without a date are left out. *)
Theorem daily_stats_series (filtered : list row) :
  let s := daily_stats filtered in
  StronglySorted by_day s
  /\ (forall a b, by_day a b <-> lex_lt (fst a) (fst b))
  /\ (forall d, In d (map fst s) <->
                exists r, In r filtered /\ Date r = Some d)
  /\ (forall d v w,
        In (d, (v, w)) s <->
        daily_stats (on_day d filtered) = [(d, (v, w))])
  /\ daily_stats filtered = daily_stats (dated filtered).
Proof.
  intros s.
  assert (HS : StronglySorted by_day s) by (apply daily_fold_sorted; constructor).
  assert (Hentry : forall d v w,
            In (d, (v, w)) s <->
            daily_stats (on_day d filtered) = [(d, (v, w))]).
  { intros d v w. rewrite (sums_of_In d (v, w) s HS).
    unfold s, daily_stats.
    assert (Hloc : sums_of d (fold_left day_step filtered [])
                   = sums_of d (fold_left day_step (on_day d filtered) []))
      by exact (daily_fold_local d filtered [] (SSorted_nil _)).
    rewrite Hloc.
    destruct (single_day d (on_day d filtered) (on_day_dates d filtered)
                [] (or_introl eq_refl)) as [(-> & _) | (vw & ->)].
    - simpl. split; discriminate.
    - simpl. rewrite date_eqb_refl. split; congruence. }
  split; [exact HS|]. split; [|split; [|split]].
  - intros a b. apply date_ltb_iff.
  - intros d. split.
    + intros Hd. apply in_map_iff in Hd. destruct Hd as ([d' [v w]] & E & Hx).
      simpl in E. subst d'. apply Hentry in Hx.
      destruct (on_day d filtered) as [|r l] eqn:El; [discriminate|].
      exists r. assert (Hr : In r (on_day d filtered))
        by (rewrite El; now left).
      split; [|exact (on_day_dates d filtered r Hr)].
      unfold on_day in Hr. now apply filter_In in Hr.
    + intros (r & Hr & Hd).
      destruct (single_day d (on_day d filtered) (on_day_dates d filtered)
                  [] (or_introl eq_refl)) as [(_ & E) | ([v w] & E)].
      * pose proof (on_day_In d filtered r Hr Hd) as Hin.
        rewrite E in Hin. contradiction.
      * apply Hentry in E.
        change d with (fst (d, (v, w))). now apply in_map.
  - exact Hentry.
  - unfold daily_stats. apply daily_fold_dated.
Qed.

Local Close Scope Z_scope.
